(** * EditFlow planner data layer: [src/hooks/usePlannerData.ts]

    A shallow embedding of the planner hook: the job and editor
    collections, the reindexing performed by [moveJob], the plan-limited
    [addEditor], [deleteEditor] with its reload-on-failure path, and the
    read-only [getEditorCapacity] query. *)

From Stdlib Require Import ZArith QArith Qround List String Bool Lia Permutation Sorted.
From Stdlib Require Import Floats.SpecFloat.
Import ListNotations.

Open Scope string_scope.
Open Scope list_scope.
Open Scope Z_scope.

(** ** JavaScript values used by the hook *)

(** A completed JavaScript computation: a normal return or a thrown
    error, identified by its [message]. *)
Inductive completion (A : Type) : Type :=
| Normal (a : A)
| Throw (message : string).
Arguments Normal {A} a.
Arguments Throw {A} message.

(** Strict equality [===] on strings. *)
Infix "===" := String.eqb (at level 70, no associativity) : bool_scope.
Open Scope bool_scope.

(** JavaScript numbers are IEEE-754 binary64 values; the operations are
    those of the standard library's executable specification. *)
Definition number := spec_float.
Definition prec : Z := 53.
Definition emax : Z := 1024.

(** An integer literal. *)
Definition lit (z : Z) : number := binary_normalize prec emax z 0 false.
Definition NaN : number := S754_nan.

Definition js_add : number -> number -> number := SFadd prec emax.
Definition js_mul : number -> number -> number := SFmul prec emax.
Definition js_div : number -> number -> number := SFdiv prec emax.

(** [ToBoolean] on numbers: [+0], [-0] and [NaN] are falsy. *)
Definition ToBoolean (x : number) : bool :=
  match x with
  | S754_zero _ | S754_nan => false
  | _ => true
  end.

(** [Math.round]: the integer nearest to [x], ties towards +infinity;
    the sign of a zero result is the sign of [x].  A finite value with
    a non-negative exponent is already an integer; otherwise
    [floor (x + 1/2)] is computed exactly on the mantissa. *)
Definition Math_round (x : number) : number :=
  match x with
  | S754_finite s m e =>
      if 0 <=? e then x
      else
        let n := (cond_Zopp s (Zpos m) * 2 + 2 ^ (- e)) / 2 ^ (1 - e) in
        binary_normalize prec emax n 0 s
  | _ => x
  end.

(** [Math.min] of two numbers: [NaN] if either is, and [-0] below [+0]. *)
Definition Math_min (x y : number) : number :=
  match SFcompare x y with
  | None => NaN
  | Some Lt => x
  | Some Gt => y
  | Some Eq => match x with S754_zero true => x | _ => y end
  end.

(** ** Data model *)

Inductive Priority := low | medium | high.
Inductive Status := queued | in_progress | review.

(** [estimatedHours] is a fractional quantity and is kept as an IEEE-754
    binary64 value; [scheduledDate] and [order] are integer columns of
    the backend and are only compared and shifted by one, so they are
    kept as integers. *)
Module Job.
Record t := mk {
  id : string;
  title : string;
  clientName : string;
  editorId : string;
  scheduledDate : Z;
  weekStart : string;
  estimatedHours : number;
  priority : Priority;
  status : Status;
  order : Z
}.
End Job.

(** ** [moveJob]: the state updater passed to [setJobs] *)

(** [Array.prototype.findIndex]: the first index satisfying [p], or -1. *)
Fixpoint findIndex {A : Type} (p : A -> bool) (l : list A) : Z :=
  match l with
  | [] => -1
  | x :: l' =>
      if p x then 0
      else let i := findIndex p l' in if i =? -1 then -1 else i + 1
  end.

(** The object spread [{ ...j, order: o }]. *)
Definition with_order (j : Job.t) (o : Z) : Job.t :=
  Job.mk (Job.id j) (Job.title j) (Job.clientName j) (Job.editorId j)
         (Job.scheduledDate j) (Job.weekStart j) (Job.estimatedHours j)
         (Job.priority j) (Job.status j) o.

(** The callback of [prev.map] inside the updater; [job] is the moved
    job as it was found in [prev]. *)
Definition moveJob_map (job : Job.t) (jobId newEditorId : string)
    (newDayIndex newOrder : Z) (wasInSameCell : bool) (j : Job.t) : Job.t :=
  if Job.id j === jobId then
    Job.mk (Job.id j) (Job.title j) (Job.clientName j) newEditorId newDayIndex
           (Job.weekStart j) (Job.estimatedHours j) (Job.priority j)
           (Job.status j) newOrder
  else if (Job.editorId j === newEditorId) && (Job.scheduledDate j =? newDayIndex)
          && (Job.weekStart j === Job.weekStart job) && negb (Job.id j === jobId)
  then
    if wasInSameCell then
      let oldOrder := Job.order job in
      if (newOrder >? oldOrder) && (Job.order j >? oldOrder)
         && (Job.order j <=? newOrder)
      then with_order j (Job.order j - 1)
      else if (newOrder <? oldOrder) && (Job.order j >=? newOrder)
              && (Job.order j <? oldOrder)
      then with_order j (Job.order j + 1)
      else j
    else
      if Job.order j >=? newOrder then with_order j (Job.order j + 1) else j
  else j.

(** The updater [prev => ...] of [moveJob].  Reading a property of
    [prev[jobIndex]] when that element is undefined is a [TypeError].
    The detached block that sends the moved job's new position to the
    backend does not take part in the returned array. *)
Definition moveJob (prev : list Job.t) (jobId newEditorId : string)
    (newDayIndex newOrder : Z) : completion (list Job.t) :=
  let jobIndex := findIndex (fun j => Job.id j === jobId) prev in
  if jobIndex =? -1 then Normal prev
  else
    match nth_error prev (Z.to_nat jobIndex) with
    | None => Throw "TypeError"
    | Some job =>
        let wasInSameCell :=
          (Job.editorId job === newEditorId) && (Job.scheduledDate job =? newDayIndex) in
        Normal (map (moveJob_map job jobId newEditorId newDayIndex newOrder
                                 wasInSameCell) prev)
    end.

(** ** Editors, the signed-in user and the hook state *)

Module Editor.
Record t := mk {
  id : string;
  name : string;
  weeklyCapacity : number
}.
End Editor.

Module User.
Record t := mk { id : string }.
End User.

(** The state held by [usePlannerData]; [currentWeekStartStr] is the
    formatted [currentWeekStart]. *)
Record Planner := mkPlanner {
  user : option User.t;
  loading : bool;
  editors : list Editor.t;
  jobs : list Job.t;
  currentWeekStartStr : string
}.

Definition setEditors (f : list Editor.t -> list Editor.t) (st : Planner) : Planner :=
  mkPlanner (user st) (loading st) (f (editors st)) (jobs st) (currentWeekStartStr st).

Definition setJobs (f : list Job.t -> list Job.t) (st : Planner) : Planner :=
  mkPlanner (user st) (loading st) (editors st) (f (jobs st)) (currentWeekStartStr st).

Definition setLoading (b : bool) (st : Planner) : Planner :=
  mkPlanner (user st) b (editors st) (jobs st) (currentWeekStartStr st).

(** ** The backend, as the hook sees it *)

(** Rows of the [editors] and [jobs] tables. *)
Module EditorRow.
Record t := mk {
  id : string;
  name : string;
  weekly_capacity : number
}.
End EditorRow.

Module JobRow.
Record t := mk {
  id : string;
  title : string;
  client_name : string;
  editor_id : string;
  scheduled_date : Z;
  week_start : string;
  estimated_hours : number;
  priority : Priority;
  status : Status;
  order : Z
}.
End JobRow.

(** What an awaited client call yields: [{data, error: null}],
    [{data: null, error}], or a rejected promise. *)
Inductive reply (A : Type) : Type :=
| Data (data : A)
| Error (message : string)
| Rejected (message : string).
Arguments Data {A} data.
Arguments Error {A} message.
Arguments Rejected {A} message.

(** The answers of the hosted database to the calls the hook makes. *)
Record Backend := mkBackend {
  profiles_select_plan_type : reply string;
  editors_insert : string -> string -> number -> reply EditorRow.t;
  editors_delete : string -> reply unit;
  editors_select : reply (list EditorRow.t);
  jobs_select_week : string -> reply (list JobRow.t);
  jobs_select : reply (list JobRow.t)
}.

(** Observable effects, in the order they happen. *)
Inductive Event :=
| select_profile
| insert_editor (user_id name : string) (weekly_capacity : number)
| delete_editor (id : string)
| select_editors
| select_jobs_of_week (week_start : string)
| select_jobs
| toast_success (text : string)
| toast_error (text : string)
| console_error (text : string).

(** ** [fetchData] *)

Definition formatEditor (e : EditorRow.t) : Editor.t :=
  Editor.mk (EditorRow.id e) (EditorRow.name e) (EditorRow.weekly_capacity e).

Definition formatJob (j : JobRow.t) : Job.t :=
  Job.mk (JobRow.id j) (JobRow.title j) (JobRow.client_name j) (JobRow.editor_id j)
        (JobRow.scheduled_date j) (JobRow.week_start j) (JobRow.estimated_hours j)
        (JobRow.priority j) (JobRow.status j) (JobRow.order j).

(** The [catch] and [finally] blocks of [fetchData]. *)
Definition fetchData_failed (st : Planner) (log : list Event) : Planner * list Event :=
  (setLoading false st,
   (log ++ [console_error "Error fetching data:";
            toast_error "Failed to load planner data"])).

Definition fetchData (st : Planner) (be : Backend) : Planner * list Event :=
  match user st with
  | None =>
      (setLoading false (setJobs (fun _ => []) (setEditors (fun _ => []) st)), [])
  | Some _ =>
      let st := setLoading true st in
      match editors_select be with
      | Data editorsData =>
          let st := setEditors (fun _ => map formatEditor editorsData) st in
          let week := currentWeekStartStr st in
          match jobs_select_week be week with
          | Rejected _ =>
              fetchData_failed st [select_editors; select_jobs_of_week week]
          | _ =>
              match jobs_select be with
              | Data allJobsData =>
                  (setLoading false (setJobs (fun _ => map formatJob allJobsData) st),
                   [select_editors; select_jobs_of_week week; select_jobs])
              | _ =>
                  fetchData_failed st
                    [select_editors; select_jobs_of_week week; select_jobs]
              end
          end
      | _ => fetchData_failed st [select_editors]
      end
  end.

(** ** [addEditor] *)

(** The argument of [addEditor]: an editor without its [id]. *)
Record EditorInput := mkEditorInput {
  input_name : string;
  input_weeklyCapacity : number
}.

(** The outer [catch] of [addEditor]: every error is thrown again; all
    but the plan-limit error are logged and shown first. *)
Definition addEditor_catch (message : string) : list Event :=
  if message === "PLAN_LIMIT_REACHED" then []
  else [console_error "Error adding editor:";
        toast_error (if message === "" then "Failed to add editor" else message)].

(** The callback closes over the [user] and the [editors] of the render
    that created it, [render]; the updater [prev => [...prev, newEditor]]
    runs, after the awaited calls, on the state of that moment, [st].
    A call that nothing overlaps has [render = st]. *)
Definition addEditor (render st : Planner) (be : Backend) (editor : EditorInput)
  : Planner * list Event * completion (option Editor.t) :=
  match user render with
  | None => (st, [], Normal None)
  | Some u =>
      let planType :=
        match profiles_select_plan_type be with
        | Data plan_type => plan_type
        | _ => "free"
        end in
      let limit := if planType === "pro" then 10 else 2 in
      if Z.of_nat (List.length (editors render)) >=? limit then
        (st, ([select_profile] ++ addEditor_catch "PLAN_LIMIT_REACHED"),
         Throw "PLAN_LIMIT_REACHED")
      else
        let request :=
          insert_editor (User.id u) (input_name editor) (input_weeklyCapacity editor) in
        match editors_insert be (User.id u) (input_name editor)
                             (input_weeklyCapacity editor) with
        | Data data =>
            let newEditor := formatEditor data in
            (setEditors (fun prev => prev ++ [newEditor]) st,
             [select_profile; request; toast_success "Editor added"],
             Normal (Some newEditor))
        | Error message | Rejected message =>
            (st, ([select_profile; request] ++ addEditor_catch message),
             Throw message)
        end
  end.

(** ** [deleteEditor] *)

Definition deleteEditor (st : Planner) (be : Backend) (editorId : string)
  : Planner * list Event :=
  let st := setEditors (filter (fun editor => negb (Editor.id editor === editorId))) st in
  match editors_delete be editorId with
  | Rejected _ =>
      let '(st', log) := fetchData st be in
      (st', ([delete_editor editorId; console_error "Delete editor failed"]
             ++ log))
  | _ => (st, [delete_editor editorId; toast_success "Editor deleted"])
  end.

(** ** [getEditorCapacity] *)

Definition getEditorCapacity (st : Planner) (editorId : string) : number :=
  let editorJobs :=
    filter (fun job => (Job.editorId job === editorId)
                       && (Job.weekStart job === currentWeekStartStr st)) (jobs st) in
  let totalHours :=
    fold_left (fun sum job => js_add sum (Job.estimatedHours job)) editorJobs (lit 0) in
  let editor := find (fun e => Editor.id e === editorId) (editors st) in
  let weeklyCapacity :=
    match editor with
    | Some e => if ToBoolean (Editor.weeklyCapacity e) then Editor.weeklyCapacity e
                else lit 40
    | None => lit 40
    end in
  Math_min (lit 100) (Math_round (js_mul (js_div totalHours weeklyCapacity) (lit 100))).

(** ** Vocabulary of the specification *)

(** A cell is the grouping key (editor, day of week, week). *)
Definition Cell : Type := string * Z * string.

Definition cell (j : Job.t) : Cell :=
  (Job.editorId j, Job.scheduledDate j, Job.weekStart j).

Definition in_cell (c : Cell) (j : Job.t) : bool :=
  let '(e, d, w) := c in
  (Job.editorId j === e) && (Job.scheduledDate j =? d) && (Job.weekStart j === w).

(** The order values found in cell [c] of a collection. *)
Definition cell_orders (c : Cell) (l : list Job.t) : list Z :=
  map Job.order (filter (in_cell c) l).

(** The values of [orders] are exactly 0, ..., n-1, each once. *)
Definition exactly_0_to (n : nat) (orders : list Z) : Prop :=
  List.length orders = n /\ NoDup orders /\
  forall k, In k orders <-> 0 <= k < Z.of_nat n.

(** Identity in the data model: identifiers are unique across the
    collection. *)
Definition unique_ids (l : list Job.t) : Prop := NoDup (map Job.id l).

(** The job a move refers to: the first one carrying the identifier. *)
Definition movedJob (prev : list Job.t) (jobId : string) : option Job.t :=
  find (fun j => Job.id j === jobId) prev.

(** [j'] has every field of [j] except, possibly, the order. *)
Definition same_but_order (j j' : Job.t) : Prop :=
  Job.id j' = Job.id j /\ Job.title j' = Job.title j /\
  Job.clientName j' = Job.clientName j /\ Job.editorId j' = Job.editorId j /\
  Job.scheduledDate j' = Job.scheduledDate j /\
  Job.weekStart j' = Job.weekStart j /\
  Job.estimatedHours j' = Job.estimatedHours j /\
  Job.priority j' = Job.priority j /\ Job.status j' = Job.status j.

(** [j'] is [j] with its order one lower, and one higher. *)
Definition decremented (j j' : Job.t) : Prop :=
  Job.order j' = Job.order j - 1 /\ same_but_order j j'.

Definition incremented (j j' : Job.t) : Prop :=
  Job.order j' = Job.order j + 1 /\ same_but_order j j'.

(** How [moveJob] relates a job [j] of the input to its counterpart
    [j'] of the output when the moved job [job] stays in its cell. *)
Definition same_cell_shift (job : Job.t) (jobId : string) (newOrder : Z)
    (j j' : Job.t) : Prop :=
  let oldOrder := Job.order job in
  if Job.id j === jobId then Job.order j' = newOrder
  else
    (newOrder > oldOrder ->
       (cell j = cell job /\ oldOrder < Job.order j <= newOrder ->
        decremented j j') /\
       (~ (cell j = cell job /\ oldOrder < Job.order j <= newOrder) -> j' = j)) /\
    (newOrder < oldOrder ->
       (cell j = cell job /\ newOrder <= Job.order j < oldOrder ->
        incremented j j') /\
       (~ (cell j = cell job /\ newOrder <= Job.order j < oldOrder) -> j' = j)) /\
    (newOrder = oldOrder -> j' = j).

(** The same when the moved job changes cell. *)
Definition cross_cell_shift (job : Job.t) (jobId newEditorId : string)
    (newDayIndex newOrder : Z) (j j' : Job.t) : Prop :=
  let destination : Cell := (newEditorId, newDayIndex, Job.weekStart job) in
  if Job.id j === jobId then
    Job.editorId j' = newEditorId /\ Job.scheduledDate j' = newDayIndex /\
    Job.order j' = newOrder
  else
    (cell j = destination /\ Job.order j >= newOrder -> incremented j j') /\
    (~ (cell j = destination /\ Job.order j >= newOrder) -> j' = j) /\
    (cell j = cell job -> Job.order j' = Job.order j).

(** The cell whose jobs a move may reindex, if the job exists. *)
Definition destination_cell (prev : list Job.t) (jobId newEditorId : string)
    (newDayIndex : Z) : option Cell :=
  option_map (fun job => (newEditorId, newDayIndex, Job.weekStart job))
             (movedJob prev jobId).

(** What a move leaves untouched in a job [j] whose counterpart is [j']. *)
Definition move_frame (prev : list Job.t) (jobId newEditorId : string)
    (newDayIndex : Z) (j j' : Job.t) : Prop :=
  (Job.id j' = Job.id j /\ Job.title j' = Job.title j /\
   Job.clientName j' = Job.clientName j /\
   Job.estimatedHours j' = Job.estimatedHours j /\
   Job.priority j' = Job.priority j /\ Job.status j' = Job.status j /\
   Job.weekStart j' = Job.weekStart j) /\
  (Job.id j <> jobId ->
     (Job.order j' = Job.order j -> j' = j) /\
     (j' = j \/ j' = with_order j (Job.order j + 1)
      \/ j' = with_order j (Job.order j - 1)) /\
     (Some (cell j) <> destination_cell prev jobId newEditorId newDayIndex ->
      j' = j)).

(** What a move does to the week of a job. *)
Definition week_kept (prev : list Job.t) (jobId : string) (j j' : Job.t) : Prop :=
  Job.weekStart j' = Job.weekStart j /\
  (Job.id j <> jobId ->
     (j' <> j ->
      exists job, movedJob prev jobId = Some job /\
                  Job.weekStart j = Job.weekStart job) /\
     ((forall job, movedJob prev jobId = Some job ->
                   Job.weekStart j <> Job.weekStart job) -> j' = j)).

(** The effect of an in-cell move from [oldOrder] to [newOrder] on an
    order value [o] of the cell. *)
Definition reindex (oldOrder newOrder o : Z) : Z :=
  if o =? oldOrder then newOrder
  else if (oldOrder <? o) && (o <=? newOrder) then o - 1
  else if (newOrder <=? o) && (o <? oldOrder) then o + 1
  else o.

(** A job for examples: only position and identity vary. *)
Definition job_at (i e : string) (d : Z) (w : string) (o : Z) : Job.t :=
  Job.mk i "Teaser cut" "Acme" e d w (lit 4) medium queued o.

(** Two jobs in another cell of the same week, for moves across cells. *)
Definition two_job_cell : list Job.t :=
  [job_at "x" "e2" 4 "2024-01-01" 0; job_at "y" "e2" 4 "2024-01-01" 1].

(** The caller's plan tier as [addEditor] reads it: the stored tier, or
    the free tier when the profile cannot be read. *)
Definition plan_tier (be : Backend) : string :=
  match profiles_select_plan_type be with
  | Data tier => tier
  | _ => "free"
  end.

(** The editor limit of the plan: 10 for the pro tier, 2 otherwise. *)
Definition plan_limit (be : Backend) : Z :=
  if plan_tier be === "pro" then 10 else 2.

Definition is_insert (ev : Event) : bool :=
  match ev with
  | insert_editor _ _ _ => true
  | _ => false
  end.

(** The outcome [r] of [addEditor] from state [st] is the plan-limit
    error, with the local state untouched and no insertion sent. *)
Definition rejected_at_limit (st : Planner)
    (r : Planner * list Event * completion (option Editor.t)) : Prop :=
  let '(st', log, result) := r in
  result = Throw "PLAN_LIMIT_REACHED" /\ st' = st /\
  forallb (fun ev => negb (is_insert ev)) log = true.

(** Values for examples. *)
Definition alice : Editor.t := Editor.mk "e1" "Alice" (lit 40).
Definition bob : Editor.t := Editor.mk "e2" "Bob" (lit 40).
Definition carol : EditorInput := mkEditorInput "Carol" (lit 40).

(** A backend that answers every call, with the given plan tier and no
    stored rows. *)
Definition answering_backend (tier : string) : Backend :=
  mkBackend (Data tier)
            (fun _ name capacity => Data (EditorRow.mk "e-new" name capacity))
            (fun _ => Data tt)
            (Data [])
            (fun _ => Data [])
            (Data []).

(** A backend whose [delete] on [editors] is rejected and whose tables
    hold one editor and one job assigned to ["e2"]. *)
Definition failing_delete_backend : Backend :=
  mkBackend (Data "free")
            (fun _ name capacity => Data (EditorRow.mk "e-new" name capacity))
            (fun _ => Rejected "Failed to fetch")
            (Data [EditorRow.mk "e1" "Alice" (lit 40)])
            (fun _ => Data [])
            (Data [JobRow.mk "a" "Teaser cut" "Acme" "e2" 0 "2024-01-01" (lit 4)
                             medium queued 0]).

(** The hours of an editor's jobs in the selected week, in collection
    order, and their sum accumulated from the left. *)
Definition week_hours (st : Planner) (editorId : string) : list number :=
  map Job.estimatedHours
      (filter (fun job => (Job.editorId job === editorId)
                          && (Job.weekStart job === currentWeekStartStr st))
              (jobs st)).

Definition js_sum (hours : list number) : number :=
  fold_left js_add hours (lit 0).

(** The capacity the load is measured against: the editor's own, or 40
    when there is no such editor or its capacity is a zero or [NaN]. *)
Definition capacity_or_40 (st : Planner) (editorId : string) : number :=
  match find (fun e => Editor.id e === editorId) (editors st) with
  | Some e =>
      match Editor.weeklyCapacity e with
      | S754_zero _ | S754_nan => lit 40
      | capacity => capacity
      end
  | None => lit 40
  end.

(** The load formula in the words of the specification,
    [round(min(100, 100 * sum / weeklyCapacity))] with the capacity
    "or 40 if absent", evaluated on binary64 numbers. *)
Definition claimed_capacity (st : Planner) (editorId : string) : number :=
  let weeklyCapacity :=
    match find (fun e => Editor.id e === editorId) (editors st) with
    | Some e => Editor.weeklyCapacity e
    | None => lit 40
    end in
  Math_round
    (Math_min (lit 100)
       (js_div (js_mul (lit 100) (js_sum (week_hours st editorId))) weeklyCapacity)).

(** The same formula over exact rationals, rounding halves upwards. *)
Definition claimed_capacity_exact (hours : list Q) (weeklyCapacity : Q) : Z :=
  let percent := (100 * fold_left Qplus hours 0 / weeklyCapacity)%Q in
  Qfloor ((if Qle_bool 100 percent then 100 else percent) + (1 # 2))%Q.

(** The rational denoted by a finite number. *)
Definition exact (x : number) : Q :=
  match x with
  | S754_finite s m e => (inject_Z (cond_Zopp s (Zpos m)) * Qpower 2 e)%Q
  | _ => 0%Q
  end.

(** The mantissa of 100, whose exponent is -46. *)
Definition M100 : positive := 7036874417766400.

(** [floor (m / 2^k + 1/2)], the rounding of a positive mantissa [m]
    with exponent [-k]. *)
Definition half_up (m k : Z) : Z := (m * 2 + 2 ^ k) / 2 ^ (k + 1).

(** Numbers that are not above zero, and [NaN]. *)
Definition not_positive (x : number) : Prop :=
  match x with
  | S754_zero _ => True
  | S754_infinity s | S754_finite s _ _ => s = true
  | S754_nan => True
  end.

(** One editor of capacity 40 with one 23-hour job this week. *)
Definition planner_23_of_40 : Planner :=
  mkPlanner (Some (User.mk "u1")) false [alice]
    [Job.mk "a" "Teaser cut" "Acme" "e1" 0 "2024-01-01" (lit 23) medium queued 0]
    "2024-01-01".

(** One editor of capacity 40 with jobs of 10 and 15 hours this week,
    one job in another week and one job of another editor. *)
Definition planner_25_of_40 : Planner :=
  mkPlanner (Some (User.mk "u1")) false [alice; bob]
    [Job.mk "a" "Teaser cut" "Acme" "e1" 0 "2024-01-01" (lit 10) medium queued 0;
     Job.mk "b" "Trailer" "Acme" "e1" 3 "2024-01-08" (lit 30) high queued 0;
     Job.mk "c" "Promo" "Initech" "e2" 0 "2024-01-01" (lit 8) low review 0;
     Job.mk "d" "Recap" "Initech" "e1" 4 "2024-01-01" (lit 15) medium in_progress 0]
    "2024-01-01".

Definition four_job_cell : list Job.t :=
  [job_at "a" "e1" 2 "2024-01-01" 0; job_at "b" "e1" 2 "2024-01-01" 1;
   job_at "c" "e1" 2 "2024-01-01" 2; job_at "d" "e1" 2 "2024-01-01" 3].

(** * The remaining operations of the hook *)

(** ** Partial updates *)

(** [{ ...old, field: update }] for an optional [update]. *)
Definition spread {A : Type} (old : A) (update : option A) : A :=
  match update with
  | Some v => v
  | None => old
  end.

(** A string-valued field passes an [if (field)] test when it is
    present and not empty. *)
Definition truthy_string (field : option string) : option string :=
  match field with
  | Some s => if s === "" then None else Some s
  | None => None
  end.

(** A number-valued field passes an [if (field)] test when it is present
    and neither a zero nor [NaN]. *)
Definition truthy_number (field : option number) : option number :=
  match field with
  | Some x => if ToBoolean x then Some x else None
  | None => None
  end.

(** [Partial<Job>]. *)
Module JobPatch.
Record t := mk {
  id : option string;
  title : option string;
  clientName : option string;
  editorId : option string;
  scheduledDate : option Z;
  weekStart : option string;
  estimatedHours : option number;
  priority : option Priority;
  status : option Status;
  order : option Z
}.
End JobPatch.

(** [Partial<Editor>]. *)
Module EditorPatch.
Record t := mk {
  id : option string;
  name : option string;
  weeklyCapacity : option number
}.
End EditorPatch.

(** The [dbUpdates] object sent for a job and for an editor. *)
Module JobRowPatch.
Record t := mk {
  title : option string;
  client_name : option string;
  editor_id : option string;
  scheduled_date : option Z;
  estimated_hours : option number;
  priority : option Priority;
  status : option Status;
  order : option Z;
  week_start : option string
}.
End JobRowPatch.

Module EditorRowPatch.
Record t := mk {
  name : option string;
  weekly_capacity : option number
}.
End EditorRowPatch.

(** The row [addJob] inserts. *)
Module DbJob.
Record t := mk {
  user_id : string;
  editor_id : string;
  title : string;
  client_name : string;
  scheduled_date : Z;
  week_start : string;
  estimated_hours : number;
  priority : Priority;
  status : Status;
  order : Z
}.
End DbJob.

(** The argument of [addJob]: a job without [id], [order], [weekStart]. *)
Module JobInput.
Record t := mk {
  title : string;
  clientName : string;
  editorId : string;
  scheduledDate : Z;
  estimatedHours : number;
  priority : Priority;
  status : Status
}.
End JobInput.

(** The answers of the hosted database to the writes on [jobs] and to
    the update of [editors]. *)
Record Writes := mkWrites {
  jobs_insert : DbJob.t -> reply JobRow.t;
  jobs_update : string -> JobRowPatch.t -> reply unit;
  jobs_delete : string -> reply unit;
  jobs_update_editor : string -> string -> reply unit;
  editors_update : string -> EditorRowPatch.t -> reply unit
}.

(** Effects of the remaining operations; the earlier ones are carried
    by [seen]. *)
Inductive Effect :=
| seen (ev : Event)
| insert_job (row : DbJob.t)
| update_job (id : string) (dbUpdates : JobRowPatch.t)
| delete_job (id : string)
| reassign_jobs (fromEditorId toEditorId : string)
| update_editor (id : string) (dbUpdates : EditorRowPatch.t).

(** ** [addJob] *)

(** The callback closes over the [user], the [jobs] and the displayed
    week of the render that created it, [render]: the new order is
    counted there.  The updater [prev => [...prev, newJob]] runs, after
    the awaited insertion, on the state of that moment, [st].  A call
    that nothing overlaps has [render = st]. *)
Definition addJob (render st : Planner) (wr : Writes) (job : JobInput.t)
  : Planner * list Effect * completion (option Job.t) :=
  match user render with
  | None => (st, [], Normal None)
  | Some u =>
      let newJobOrder :=
        Z.of_nat
          (List.length
             (filter (fun j => (Job.editorId j === JobInput.editorId job)
                               && (Job.scheduledDate j =? JobInput.scheduledDate job)
                               && (Job.weekStart j === currentWeekStartStr render))
                     (jobs render))) in
      let dbJob :=
        DbJob.mk (User.id u) (JobInput.editorId job) (JobInput.title job)
                 (JobInput.clientName job) (JobInput.scheduledDate job)
                 (currentWeekStartStr render) (JobInput.estimatedHours job)
                 (JobInput.priority job) (JobInput.status job) newJobOrder in
      match jobs_insert wr dbJob with
      | Data data =>
          let newJob :=
            Job.mk (JobRow.id data) (JobRow.title data) (JobRow.client_name data)
                   (JobRow.editor_id data) (JobRow.scheduled_date data)
                   (JobRow.week_start data) (JobRow.estimated_hours data)
                   (JobRow.priority data) (JobRow.status data) (JobRow.order data) in
          (setJobs (fun prev => prev ++ [newJob]) st,
           [insert_job dbJob; seen (toast_success "Job created")],
           Normal (Some newJob))
      | Error _ | Rejected _ =>
          (st,
           [insert_job dbJob; seen (console_error "Error adding job:");
            seen (toast_error "Failed to create job")],
           Normal None)
      end
  end.

(** ** [updateJob] *)

(** [{ ...job, ...updates }]. *)
Definition merge_job (job : Job.t) (updates : JobPatch.t) : Job.t :=
  Job.mk (spread (Job.id job) (JobPatch.id updates))
         (spread (Job.title job) (JobPatch.title updates))
         (spread (Job.clientName job) (JobPatch.clientName updates))
         (spread (Job.editorId job) (JobPatch.editorId updates))
         (spread (Job.scheduledDate job) (JobPatch.scheduledDate updates))
         (spread (Job.weekStart job) (JobPatch.weekStart updates))
         (spread (Job.estimatedHours job) (JobPatch.estimatedHours updates))
         (spread (Job.priority job) (JobPatch.priority updates))
         (spread (Job.status job) (JobPatch.status updates))
         (spread (Job.order job) (JobPatch.order updates)).

(** The [dbUpdates] of [updateJob]: text fields are copied when truthy,
    [scheduledDate], [estimatedHours] and [order] when defined; a
    priority or status, being a non-empty string, is truthy whenever it
    is defined. *)
Definition job_dbUpdates (updates : JobPatch.t) : JobRowPatch.t :=
  JobRowPatch.mk (truthy_string (JobPatch.title updates))
                 (truthy_string (JobPatch.clientName updates))
                 (truthy_string (JobPatch.editorId updates))
                 (JobPatch.scheduledDate updates)
                 (JobPatch.estimatedHours updates)
                 (JobPatch.priority updates)
                 (JobPatch.status updates)
                 (JobPatch.order updates)
                 (truthy_string (JobPatch.weekStart updates)).

Definition updateJob (st : Planner) (be : Backend) (wr : Writes)
    (jobId : string) (updates : JobPatch.t) : Planner * list Effect :=
  let st :=
    setJobs (map (fun job => if Job.id job === jobId then merge_job job updates
                             else job)) st in
  let dbUpdates := job_dbUpdates updates in
  match jobs_update wr jobId dbUpdates with
  | Data _ => (st, [update_job jobId dbUpdates])
  | Error _ | Rejected _ =>
      let '(st', log) := fetchData st be in
      (st', [update_job jobId dbUpdates; seen (console_error "Error updating job:");
             seen (toast_error "Failed to update job")] ++ map seen log)
  end.

(** ** [deleteJob] *)

Definition deleteJob (st : Planner) (be : Backend) (wr : Writes) (jobId : string)
  : Planner * list Effect :=
  let st := setJobs (filter (fun job => negb (Job.id job === jobId))) st in
  match jobs_delete wr jobId with
  | Data _ => (st, [delete_job jobId; seen (toast_success "Job deleted")])
  | Error _ | Rejected _ =>
      let '(st', log) := fetchData st be in
      (st', [delete_job jobId; seen (console_error "Error deleting job:");
             seen (toast_error "Failed to delete job")] ++ map seen log)
  end.

(** ** [updateEditor] *)

(** [{ ...editor, ...updates }]. *)
Definition merge_editor (editor : Editor.t) (updates : EditorPatch.t) : Editor.t :=
  Editor.mk (spread (Editor.id editor) (EditorPatch.id updates))
            (spread (Editor.name editor) (EditorPatch.name updates))
            (spread (Editor.weeklyCapacity editor) (EditorPatch.weeklyCapacity updates)).

Definition editor_dbUpdates (updates : EditorPatch.t) : EditorRowPatch.t :=
  EditorRowPatch.mk (truthy_string (EditorPatch.name updates))
                    (truthy_number (EditorPatch.weeklyCapacity updates)).

Definition updateEditor (st : Planner) (be : Backend) (wr : Writes)
    (editorId : string) (updates : EditorPatch.t) : Planner * list Effect :=
  let st :=
    setEditors (map (fun editor => if Editor.id editor === editorId
                                   then merge_editor editor updates else editor)) st in
  let dbUpdates := editor_dbUpdates updates in
  match editors_update wr editorId dbUpdates with
  | Rejected _ =>
      let '(st', log) := fetchData st be in
      (st', [update_editor editorId dbUpdates;
             seen (console_error "Update editor failed")] ++ map seen log)
  | _ => (st, [update_editor editorId dbUpdates])
  end.

(** ** [reassignEditorJobs] *)

(** [{ ...job, editorId: toEditorId }]. *)
Definition with_editor (job : Job.t) (toEditorId : string) : Job.t :=
  Job.mk (Job.id job) (Job.title job) (Job.clientName job) toEditorId
         (Job.scheduledDate job) (Job.weekStart job) (Job.estimatedHours job)
         (Job.priority job) (Job.status job) (Job.order job).

Definition reassignEditorJobs (st : Planner) (be : Backend) (wr : Writes)
    (fromEditorId toEditorId : string) : Planner * list Effect :=
  let st :=
    setJobs (map (fun job => if Job.editorId job === fromEditorId
                             then with_editor job toEditorId else job)) st in
  match jobs_update_editor wr fromEditorId toEditorId with
  | Rejected _ =>
      let '(st', log) := fetchData st be in
      (st', [reassign_jobs fromEditorId toEditorId;
             seen (console_error "Reassign failed")] ++ map seen log)
  | _ => (st, [reassign_jobs fromEditorId toEditorId])
  end.

(** ** Read-only helpers *)

Definition getEditorJobCount (st : Planner) (editorId : string) : nat :=
  List.length (filter (fun job => Job.editorId job === editorId) (jobs st)).

(** [Array.prototype.sort] with the comparator [a.order - b.order]: the
    sort is stable, so its result is the stable arrangement by
    increasing order. *)
Fixpoint insert_by_order (x : Job.t) (l : list Job.t) : list Job.t :=
  match l with
  | [] => [x]
  | y :: l' =>
      if Job.order x <=? Job.order y then x :: y :: l'
      else y :: insert_by_order x l'
  end.

Definition sort_by_order (l : list Job.t) : list Job.t :=
  fold_right insert_by_order [] l.

Definition getEditorJobs (st : Planner) (editorId : string) : list Job.t :=
  sort_by_order
    (filter (fun job => (Job.editorId job === editorId)
                        && (Job.weekStart job === currentWeekStartStr st))
            (jobs st)).

Definition currentWeekJobCount (st : Planner) : nat :=
  List.length (filter (fun job => Job.weekStart job === currentWeekStartStr st)
                      (jobs st)).

(** What [getJobCountForDate] reads from its [Date]: the formatted start
    of its week (weeks start on Monday) and [getDay()], 0 for Sunday. *)
Record DateView := mkDateView {
  weekStartStr : string;
  getDay : Z
}.

Definition getJobCountForDate (st : Planner) (date : DateView) : nat :=
  let dayIndex := Z.rem (getDay date + 6) 7 in
  List.length
    (filter (fun job => (Job.weekStart job === weekStartStr date)
                        && (Job.scheduledDate job =? dayIndex))
            (jobs st)).

(** ** [DroppableCell]: the cards of a cell *)

(** The props handed to each [DraggableJobCard]. *)
Record Card := mkCard {
  card_id : string;
  card_index : nat;
  card_title : string;
  card_clientName : string;
  card_hours : number;
  card_priority : Priority;
  card_status : Status
}.

(** [l.map((job, index) => ...)], counting from [index]. *)
Fixpoint cards_from (index : nat) (l : list Job.t) : list Card :=
  match l with
  | [] => []
  | job :: l' =>
      mkCard (Job.id job) index (Job.title job) (Job.clientName job)
             (Job.estimatedHours job) (Job.priority job) (Job.status job)
      :: cards_from (S index) l'
  end.

Definition DroppableCell_cards (jobs : list Job.t) : list Card :=
  cards_from 0 (sort_by_order jobs).

(** * [PricingSection] *)

(** The signed-in user as the pricing page reads it: [user.email] and
    [user.user_metadata.full_name], either of which may be missing. *)
Module Account.
Record t := mk {
  email : option string;
  full_name : option string
}.
End Account.

(** The parsed body of a checkout response. *)
Record CheckoutData := mkCheckoutData {
  data_error : option string;
  data_checkoutUrl : option string
}.

(** A [fetch] response; reading its body as text or as JSON may fail. *)
Record Response := mkResponse {
  ok : bool;
  status : Z;
  statusText : string;
  content_type : option string;
  text : completion string;
  json : completion CheckoutData
}.

(** What the pricing page does to the outside. *)
Inductive PageEffect :=
| page_log (label detail : string)
| page_log_status (status : Z) (statusText : string)
| page_log_content_type (contentType : option string)
| page_error (label detail : string)
| page_toast_error (text : string)
| post_checkout (url plan email name : string)
| set_location_href (url : string)
| navigate (path : string).

(** [String.prototype.includes]. *)
Fixpoint includes (s sub : string) : bool :=
  match s with
  | EmptyString => String.prefix sub s
  | String _ s' => String.prefix sub s || includes s' sub
  end.

(** The [catch] block of [startCheckout]. *)
Definition startCheckout_catch (message : string) : list PageEffect :=
  [page_error "Checkout Error Details:" message;
   page_toast_error ("Checkout Error: " ++ message)%string].

Definition startCheckout (user : option Account.t) (origin : string)
    (fetch : string -> string -> string -> string -> completion Response)
    (plan : string) : list PageEffect :=
  let apiUrl := (origin ++ "/api/create-checkout")%string in
  page_log "Initiating checkout with URL:" apiUrl ::
  match truthy_string (match user with Some u => Account.email u | None => None end) with
  | None => [page_toast_error "Please ensure you are logged in correctly."]
  | Some email =>
      let name :=
        match truthy_string (match user with
                             | Some u => Account.full_name u
                             | None => None
                             end) with
        | Some full_name => full_name
        | None => email
        end in
      post_checkout apiUrl plan email name ::
      match fetch apiUrl plan email name with
      | Throw message => startCheckout_catch message
      | Normal res =>
          page_log_status (status res) (statusText res) ::
          page_log_content_type (content_type res) ::
          match content_type res with
          | Some contentType =>
              if includes contentType "application/json" then
                match json res with
                | Throw message => startCheckout_catch message
                | Normal data =>
                    if negb (ok res) then
                      startCheckout_catch
                        (match truthy_string (data_error data) with
                         | Some e => e
                         | None => "Checkout failed"
                         end)
                    else
                      match truthy_string (data_checkoutUrl data) with
                      | Some checkoutUrl =>
                          [page_log "Redirecting to:" checkoutUrl;
                           set_location_href checkoutUrl]
                      | None => []
                      end
                end
              else
                match text res with
                | Throw message => startCheckout_catch message
                | Normal body =>
                    [page_error "API Error (Non-JSON response):"
                                (String.substring 0 500 body);
                     page_toast_error "Error 404: The API endpoint was not found. Please ensure you are using the correct deployment URL."]
                end
          | None =>
              match text res with
              | Throw message => startCheckout_catch message
              | Normal body =>
                  [page_error "API Error (Non-JSON response):"
                              (String.substring 0 500 body);
                   page_toast_error "Error 404: The API endpoint was not found. Please ensure you are using the correct deployment URL."]
              end
          end
      end
  end.

(** [handlePlanClick]; [toLowerCase] is [String.prototype.toLowerCase]. *)
Definition handlePlanClick (toLowerCase : string -> string)
    (user : option Account.t) (origin : string)
    (fetch : string -> string -> string -> string -> completion Response)
    (planName : string) : list PageEffect :=
  let plan := toLowerCase planName in
  if plan === "starter" then
    [navigate (match user with Some _ => "/planner" | None => "/auth" end)]
  else
    match user with
    | None => [navigate "/auth"]
    | Some _ =>
        if plan === "pro" then startCheckout user origin fetch "pro"
        else if plan === "agency" then startCheckout user origin fetch "agency"
        else []
    end.

(** Lower-casing of the letters A to Z, for examples. *)
Definition ascii_lower (c : Ascii.ascii) : Ascii.ascii :=
  let n := Ascii.nat_of_ascii c in
  if (Nat.leb 65 n && Nat.leb n 90)%bool then Ascii.ascii_of_nat (n + 32) else c.

Fixpoint lower (s : string) : string :=
  match s with
  | EmptyString => EmptyString
  | String c s' => String (ascii_lower c) (lower s')
  end.

(** * Vocabulary for the further properties *)

(** The effect of making room at [newOrder] on an order value of the
    destination cell. *)
Definition make_room (newOrder o : Z) : Z :=
  if newOrder <=? o then o + 1 else o.

(** The local state after the updater of [moveJob] has run. *)
Definition after_move (st : Planner) (out : list Job.t) : Planner :=
  setJobs (fun _ => out) st.

(** The row a well-behaved backend returns for an inserted job: the
    request itself with a fresh identifier. *)
Definition row_of (id : string) (db : DbJob.t) : JobRow.t :=
  JobRow.mk id (DbJob.title db) (DbJob.client_name db) (DbJob.editor_id db)
            (DbJob.scheduled_date db) (DbJob.week_start db)
            (DbJob.estimated_hours db) (DbJob.priority db) (DbJob.status db)
            (DbJob.order db).

(** The cell [addJob] inserts into: the week is the one displayed in
    the render the callback comes from. *)
Definition target_cell (render : Planner) (job : JobInput.t) : Cell :=
  (JobInput.editorId job, JobInput.scheduledDate job, currentWeekStartStr render).

(** The load percentage of [hours] against [capacity], as
    [getEditorCapacity] computes it. *)
Definition load (hours : list number) (capacity : number) : number :=
  Math_min (lit 100)
           (Math_round (js_mul (js_div (js_sum hours) capacity) (lit 100))).

(** A backend that stores what it is asked to insert. *)
Definition echoing (wr : Writes) : Prop :=
  forall db, exists id, jobs_insert wr db = Data (row_of id db).

(** A backend that echoes insertions under the identifier ["j-new"] and
    accepts every other write. *)
Definition accepting_writes : Writes :=
  mkWrites (fun db => Data (row_of "j-new" db))
           (fun _ _ => Data tt)
           (fun _ => Data tt)
           (fun _ _ => Data tt)
           (fun _ _ => Data tt).

(** A backend that refuses every write with an error. *)
Definition refusing_writes : Writes :=
  mkWrites (fun _ => Error "row-level security")
           (fun _ _ => Error "row-level security")
           (fun _ => Error "row-level security")
           (fun _ _ => Error "row-level security")
           (fun _ _ => Error "row-level security").

(** The stored row of a job, and the effect of an update request on a
    stored row: the columns it lists are overwritten. *)
Definition job_row (j : Job.t) : JobRow.t :=
  JobRow.mk (Job.id j) (Job.title j) (Job.clientName j) (Job.editorId j)
            (Job.scheduledDate j) (Job.weekStart j) (Job.estimatedHours j)
            (Job.priority j) (Job.status j) (Job.order j).



Definition teaser : JobInput.t :=
  JobInput.mk "Teaser cut" "Acme" "e1" 2 (lit 4) medium queued.

Definition planner_four_jobs : Planner :=
  mkPlanner (Some (User.mk "u1")) false [alice] four_job_cell "2024-01-01".

(** The optimistic local change of [updateJob]. *)
Definition patched_jobs (jobId : string) (updates : JobPatch.t)
    (l : list Job.t) : list Job.t :=
  map (fun job => if Job.id job === jobId then merge_job job updates else job) l.

(** The reload replaces the jobs: a user is signed in and the three
    queries of [fetchData] deliver. *)
Definition reload_delivers (st : Planner) (be : Backend)
    (editorsData : list EditorRow.t) (allJobsData : list JobRow.t) : Prop :=
  user st <> None /\
  editors_select be = Data editorsData /\
  (forall message, jobs_select_week be (currentWeekStartStr st) <> Rejected message) /\
  jobs_select be = Data allJobsData.

(** A backend holding the four jobs of [four_job_cell] and one editor. *)
Definition stored_backend : Backend :=
  mkBackend (Data "free")
            (fun _ name capacity => Data (EditorRow.mk "e-new" name capacity))
            (fun _ => Data tt)
            (Data [EditorRow.mk "e1" "Alice" (lit 40)])
            (fun _ => Data [])
            (Data (map job_row four_job_cell)).


Definition rename_to (title : string) : JobPatch.t :=
  JobPatch.mk None (Some title) None None None None None None None None.

Definition zero_capacity : EditorPatch.t :=
  EditorPatch.mk None None (Some (lit 0)).

(** Two editors, each with one job at the top of Monday's cell. *)
Definition planner_two_editors : Planner :=
  mkPlanner (Some (User.mk "u1")) false [alice; bob]
            [Job.mk "a" "Intro" "Acme" "e1" 0 "2024-01-01" (lit 4) medium queued 0;
             Job.mk "b" "Outro" "Acme" "e2" 0 "2024-01-01" (lit 6) medium queued 0]
            "2024-01-01".

(** * Vocabulary for the read-only helpers *)

(** The comparator [a.order - b.order] is not positive. *)
Definition by_order (a b : Job.t) : Prop := Job.order a <= Job.order b.

(** The jobs [getEditorJobs] sorts. *)
Definition editor_week_jobs (st : Planner) (editorId : string) : list Job.t :=
  filter (fun job => (Job.editorId job === editorId)
                     && (Job.weekStart job === currentWeekStartStr st))
         (jobs st).

(** The jobs of [l] whose order is [o], in the sequence of [l]. *)
Definition with_order_value (o : Z) (l : list Job.t) : list Job.t :=
  filter (fun job => Job.order job =? o) l.

(** The values of [l] are [a], [a+1], ... in this sequence. *)
Fixpoint counts_from (a : Z) (l : list Z) : Prop :=
  match l with
  | [] => True
  | x :: l' => x = a /\ counts_from (a + 1) l'
  end.

(** A card shows a job at the position that is the job's order. *)
Definition card_of (card : Card) (job : Job.t) : Prop :=
  card_id card = Job.id job /\ Z.of_nat (card_index card) = Job.order job.

(** The seven values of [getDay()], Sunday first. *)
Definition week_days : list Z := [0; 1; 2; 3; 4; 5; 6].

(** Two backends that differ at most in what the query for the jobs of
    the displayed week returns. *)
Definition same_but_week (be be' : Backend) : Prop :=
  profiles_select_plan_type be = profiles_select_plan_type be' /\
  editors_select be = editors_select be' /\
  jobs_select be = jobs_select be'.

(** * Vocabulary for the pricing page *)

Definition is_toast (e : PageEffect) : bool :=
  match e with
  | page_toast_error _ => true
  | _ => false
  end.

Definition is_redirect (e : PageEffect) : bool :=
  match e with
  | set_location_href _ => true
  | _ => false
  end.

Definition is_post (e : PageEffect) : bool :=
  match e with
  | post_checkout _ _ _ _ => true
  | _ => false
  end.

(** How many effects of [l] pass [p]. *)
Definition count (p : PageEffect -> bool) (l : list PageEffect) : nat :=
  List.length (filter p l).

(** The endpoint [startCheckout] posts to. *)
Definition checkout_url (origin : string) : string :=
  (origin ++ "/api/create-checkout")%string.

(** Values for examples. *)
Definition dana : Account.t := Account.mk (Some "dana@example.com") None.

Definition paying_fetch (url plan email name : string) : completion Response :=
  Normal (mkResponse true 200 "OK" (Some "application/json; charset=utf-8")
                     (Normal "")
                     (Normal (mkCheckoutData None (Some "https://pay.example/c1")))).

(** ** Proof automation *)

(** Decide every test of the callback and normalise the comparisons. *)
Ltac decide_tests :=
  rewrite ?Z.gtb_ltb, ?Z.geb_leb;
  repeat match goal with
    | |- context [String.eqb ?a ?b] => destruct (String.eqb_spec a b)
    | |- context [Z.eqb ?a ?b] => destruct (Z.eqb_spec a b)
    | |- context [Z.ltb ?a ?b] => destruct (Z.ltb_spec a b)
    | |- context [Z.leb ?a ?b] => destruct (Z.leb_spec a b)
    end; simpl.

(** Close a case of the callback from the decided tests. *)
Ltac close_case :=
  repeat split; intros; try reflexivity;
  try (exfalso; intuition (try congruence; try lia)).

(** * Properties *)

(** ** Lists and lookups *)

Lemma findIndex_find {A : Type} (p : A -> bool) (l : list A) :
  match find p l with
  | None => findIndex p l = -1
  | Some x => 0 <= findIndex p l /\ nth_error l (Z.to_nat (findIndex p l)) = Some x
  end.
Proof.
  induction l as [|a l IH]; simpl; [reflexivity|].
  destruct (p a); [split; [lia|reflexivity]|].
  destruct (find p l) as [x|].
  - destruct IH as [Hge Hnth].
    destruct (Z.eqb_spec (findIndex p l) (-1)) as [E|E]; [lia|].
    split; [lia|].
    replace (Z.to_nat (findIndex p l + 1)) with (S (Z.to_nat (findIndex p l))) by lia.
    exact Hnth.
  - rewrite IH. reflexivity.
Qed.

Lemma find_none_iff {A : Type} (p : A -> bool) (l : list A) :
  find p l = None <-> forall x, In x l -> p x = false.
Proof.
  split.
  - intros H x Hx. exact (find_none p l H x Hx).
  - induction l as [|a l IH]; simpl; intros H; [reflexivity|].
    rewrite (H a (or_introl eq_refl)). apply IH. intros x Hx. apply H. now right.
Qed.

Lemma Forall2_map_self {A B : Type} (R : A -> B -> Prop) (f : A -> B) (l : list A) :
  (forall x, In x l -> R x (f x)) -> Forall2 R l (map f l).
Proof.
  induction l as [|a l IH]; simpl; intros H; constructor.
  - apply H. now left.
  - apply IH. intros x Hx. apply H. now right.
Qed.

Lemma Forall2_same {A : Type} (R : A -> A -> Prop) (l : list A) :
  (forall x, In x l -> R x x) -> Forall2 R l l.
Proof.
  intros H. rewrite <- (map_id l) at 2. now apply Forall2_map_self.
Qed.

Lemma NoDup_map_injective {A B : Type} (f : A -> B) (l : list A) :
  NoDup (map f l) -> forall x y, In x l -> In y l -> f x = f y -> x = y.
Proof.
  induction l as [|a l IH]; simpl; intros Hnd x y Hx Hy E; [contradiction|].
  inversion Hnd as [|? ? Hnotin Hnd']; subst.
  destruct Hx as [->|Hx], Hy as [->|Hy]; auto.
  - exfalso. apply Hnotin. rewrite E. now apply in_map.
  - exfalso. apply Hnotin. rewrite <- E. now apply in_map.
Qed.

(** ** The shape of [moveJob]'s result *)

Lemma in_cell_true (c : Cell) (j : Job.t) : in_cell c j = true <-> cell j = c.
Proof.
  destruct c as [[e d] w]. unfold in_cell, cell.
  rewrite !andb_true_iff, !String.eqb_eq, Z.eqb_eq.
  split; [intros [[-> ->] ->]; reflexivity | intros E; inversion E; auto].
Qed.

Lemma movedJob_Some (prev : list Job.t) (jobId : string) (job : Job.t) :
  movedJob prev jobId = Some job -> In job prev /\ Job.id job = jobId.
Proof.
  intros H. apply find_some in H. now rewrite String.eqb_eq in H.
Qed.

Lemma moveJob_not_found prev jobId newEditorId newDayIndex newOrder :
  movedJob prev jobId = None ->
  moveJob prev jobId newEditorId newDayIndex newOrder = Normal prev.
Proof.
  intros H. unfold moveJob, movedJob in *.
  pose proof (findIndex_find (fun j => Job.id j === jobId) prev) as F.
  rewrite H in F. rewrite F. reflexivity.
Qed.

Lemma moveJob_found prev jobId newEditorId newDayIndex newOrder job :
  movedJob prev jobId = Some job ->
  moveJob prev jobId newEditorId newDayIndex newOrder =
  Normal (map (moveJob_map job jobId newEditorId newDayIndex newOrder
                 ((Job.editorId job === newEditorId)
                  && (Job.scheduledDate job =? newDayIndex))) prev).
Proof.
  intros H. unfold moveJob, movedJob in *.
  pose proof (findIndex_find (fun j => Job.id j === jobId) prev) as F.
  rewrite H in F. destruct F as [Hge Hnth].
  destruct (Z.eqb_spec (findIndex (fun j => Job.id j === jobId) prev) (-1)); [lia|].
  rewrite Hnth. reflexivity.
Qed.

(** The updater never throws: the element read at [jobIndex] exists. *)
Lemma moveJob_returns prev jobId newEditorId newDayIndex newOrder :
  exists out, moveJob prev jobId newEditorId newDayIndex newOrder = Normal out
              /\ List.length out = List.length prev.
Proof.
  destruct (movedJob prev jobId) as [job|] eqn:E.
  - eexists. split; [exact (moveJob_found _ _ _ _ _ _ E)|]. now rewrite length_map.
  - eexists. split; [exact (moveJob_not_found _ _ _ _ _ E)|]. reflexivity.
Qed.

(** ** C4: an unknown identifier *)

(** C4. When no job of the collection carries [jobId], [moveJob]
    returns the collection itself, as a normal completion, whatever the
    destination editor, day and order are. *)
Theorem moveJob_unknown_id :
  forall prev jobId newEditorId newDayIndex newOrder,
    (forall j, In j prev -> Job.id j <> jobId) ->
    moveJob prev jobId newEditorId newDayIndex newOrder = Normal prev.
Proof.
  intros prev jobId e d o H. apply moveJob_not_found.
  apply find_none_iff. intros j Hj. apply String.eqb_neq. now apply H.
Qed.

Lemma moveJob_unknown_id_witness :
  let prev := [job_at "a" "e1" 0 "2024-01-01" 0; job_at "b" "e1" 0 "2024-01-01" 1] in
  (forall j, In j prev -> Job.id j <> "zz") /\
  moveJob prev "zz" "e2" 3 0 = Normal prev.
Proof.
  assert (H : forall j,
             In j [job_at "a" "e1" 0 "2024-01-01" 0; job_at "b" "e1" 0 "2024-01-01" 1] ->
             Job.id j <> "zz").
  { intros j [<-|[<-|[]]]; simpl; discriminate. }
  split; [exact H|].
  exact (moveJob_unknown_id _ "zz" "e2" 3 0 H).
Defined.

(** ** The map callback, case by case *)

Lemma cell_eq (j : Job.t) (e : string) (d : Z) (w : string) :
  cell j = (e, d, w) <->
  Job.editorId j = e /\ Job.scheduledDate j = d /\ Job.weekStart j = w.
Proof.
  unfold cell. split.
  - intros E. inversion E. auto.
  - intros (-> & -> & ->). reflexivity.
Qed.

Lemma with_order_same (j : Job.t) : with_order j (Job.order j) = j.
Proof. destruct j; reflexivity. Qed.

Lemma cell_eq_cell (j job : Job.t) :
  cell j = cell job <->
  Job.editorId j = Job.editorId job /\ Job.scheduledDate j = Job.scheduledDate job
  /\ Job.weekStart j = Job.weekStart job.
Proof. unfold cell at 2. apply cell_eq. Qed.

(** ** C2: reordering inside one cell *)

(** C2. In a move whose destination editor and day are the moved job's
    own, every job with that identifier takes order [newOrder]; among
    the other jobs, when [newOrder > oldOrder] exactly those of the
    moved job's cell with order in (oldOrder, newOrder] are decremented,
    when [newOrder < oldOrder] exactly those with order in
    [newOrder, oldOrder) are incremented, and all remaining jobs are
    returned as they were; a decremented or incremented job has its
    order lowered or raised by one and every other field as before.  In
    the four-job cell, moving the job at order 3 to order 0 sends orders
    0, 1, 2 to 1, 2, 3 and the moved job to 0, and moving the job at
    order 0 to order 3 sends orders 1, 2, 3 to 0, 1, 2 and the moved job
    to 3. *)
Theorem moveJob_same_cell_shifts :
  (forall prev jobId newEditorId newDayIndex newOrder job,
      movedJob prev jobId = Some job ->
      Job.editorId job = newEditorId ->
      Job.scheduledDate job = newDayIndex ->
      exists out,
        moveJob prev jobId newEditorId newDayIndex newOrder = Normal out /\
        Forall2 (same_cell_shift job jobId newOrder) prev out) /\
  moveJob four_job_cell "d" "e1" 2 0 =
  Normal [job_at "a" "e1" 2 "2024-01-01" 1; job_at "b" "e1" 2 "2024-01-01" 2;
          job_at "c" "e1" 2 "2024-01-01" 3; job_at "d" "e1" 2 "2024-01-01" 0] /\
  moveJob four_job_cell "a" "e1" 2 3 =
  Normal [job_at "a" "e1" 2 "2024-01-01" 3; job_at "b" "e1" 2 "2024-01-01" 0;
          job_at "c" "e1" 2 "2024-01-01" 1; job_at "d" "e1" 2 "2024-01-01" 2].
Proof.
  split; [|split; reflexivity].
  intros prev jobId e d o job Hjob He Hd.
  eexists. split; [exact (moveJob_found _ _ _ _ _ _ Hjob)|].
  apply Forall2_map_self. intros j _.
  unfold same_cell_shift, decremented, incremented, same_but_order, moveJob_map.
  subst e d.
  rewrite String.eqb_refl, Z.eqb_refl. simpl.
  pose proof (cell_eq_cell j job) as C.
  decide_tests; close_case.
Qed.

Lemma moveJob_same_cell_shifts_witness :
  movedJob four_job_cell "b" = Some (job_at "b" "e1" 2 "2024-01-01" 1) /\
  exists out,
    moveJob four_job_cell "b" "e1" 2 3 = Normal out /\
    Forall2 (same_cell_shift (job_at "b" "e1" 2 "2024-01-01" 1) "b" 3)
            four_job_cell out.
Proof.
  split; [reflexivity|].
  exact (proj1 moveJob_same_cell_shifts four_job_cell "b" "e1" 2 3
           (job_at "b" "e1" 2 "2024-01-01" 1) eq_refl eq_refl eq_refl).
Defined.

(** ** C3: moving to another cell *)

(** C3. In a move whose destination editor or day differs from the
    moved job's, the moved job takes the destination editor, day and
    order; every other job of the destination cell (destination editor
    and day, week of the moved job) with order at least [newOrder] is
    incremented, its order raised by one and every other field as
    before; every remaining job is returned as it was, and the jobs left
    in the source cell keep their order values.  Moving the job at order
    1 of the four-job cell to order 1 of a cell holding the orders 0 and
    1 sends that cell's order 1 to 2, leaves its order 0 alone and
    leaves the orders 0, 2, 3 in the source cell. *)
Theorem moveJob_cross_cell_shifts :
  (forall prev jobId newEditorId newDayIndex newOrder job,
      movedJob prev jobId = Some job ->
      Job.editorId job <> newEditorId \/ Job.scheduledDate job <> newDayIndex ->
      exists out,
        moveJob prev jobId newEditorId newDayIndex newOrder = Normal out /\
        Forall2 (cross_cell_shift job jobId newEditorId newDayIndex newOrder)
                prev out) /\
  moveJob (four_job_cell ++ two_job_cell) "b" "e2" 4 1 =
  Normal [job_at "a" "e1" 2 "2024-01-01" 0; job_at "b" "e2" 4 "2024-01-01" 1;
          job_at "c" "e1" 2 "2024-01-01" 2; job_at "d" "e1" 2 "2024-01-01" 3;
          job_at "x" "e2" 4 "2024-01-01" 0; job_at "y" "e2" 4 "2024-01-01" 2].
Proof.
  split; [|reflexivity].
  intros prev jobId e d o job Hjob Hcross.
  eexists. split; [exact (moveJob_found _ _ _ _ _ _ Hjob)|].
  apply Forall2_map_self. intros j _.
  unfold cross_cell_shift, incremented, same_but_order, moveJob_map.
  pose proof (cell_eq_cell j job) as C.
  pose proof (cell_eq j e d (Job.weekStart job)) as D.
  assert (W : (Job.editorId job === e) && (Job.scheduledDate job =? d) = false).
  { apply andb_false_iff.
    destruct Hcross; [left; now apply String.eqb_neq | right; now apply Z.eqb_neq]. }
  rewrite W. decide_tests; close_case.
Qed.

(** Two cells of the same week: [four_job_cell] and a two-job cell. *)
Lemma moveJob_cross_cell_shifts_witness :
  let prev := four_job_cell ++ [job_at "x" "e2" 4 "2024-01-01" 0;
                                job_at "y" "e2" 4 "2024-01-01" 1] in
  let job := job_at "b" "e1" 2 "2024-01-01" 1 in
  movedJob prev "b" = Some job /\
  (Job.editorId job <> "e2" \/ Job.scheduledDate job <> 4) /\
  exists out,
    moveJob prev "b" "e2" 4 1 = Normal out /\
    Forall2 (cross_cell_shift job "b" "e2" 4 1) prev out.
Proof.
  assert (H : Job.editorId (job_at "b" "e1" 2 "2024-01-01" 1) <> "e2"
              \/ Job.scheduledDate (job_at "b" "e1" 2 "2024-01-01" 1) <> 4).
  { right. simpl. lia. }
  split; [reflexivity|]. split; [exact H|].
  exact (proj1 moveJob_cross_cell_shifts
           (four_job_cell ++ [job_at "x" "e2" 4 "2024-01-01" 0;
                              job_at "y" "e2" 4 "2024-01-01" 1])
           "b" "e2" 4 1 (job_at "b" "e1" 2 "2024-01-01" 1) eq_refl H).
Defined.

(** ** C6: what a move leaves alone *)

(** C6. For every move, each job of the result keeps the identifier,
    title, client name, estimated hours, priority, status and week-start
    of its input counterpart; a job other than the moved one differs
    from its counterpart at most by an order shifted by one, is
    identical to it whenever its order was not shifted, and is identical
    to it whenever it lies outside the destination cell. *)
Theorem moveJob_frame :
  forall prev jobId newEditorId newDayIndex newOrder,
  exists out,
    moveJob prev jobId newEditorId newDayIndex newOrder = Normal out /\
    Forall2 (move_frame prev jobId newEditorId newDayIndex) prev out.
Proof.
  intros prev jobId e d o. unfold move_frame, destination_cell.
  destruct (movedJob prev jobId) as [job|] eqn:Hjob.
  - eexists. split; [exact (moveJob_found _ _ _ _ _ _ Hjob)|].
    apply Forall2_map_self. intros j _. simpl.
    unfold moveJob_map.
    pose proof (cell_eq j e d (Job.weekStart job)) as D.
    assert (I : Some (cell j) <> Some (e, d, Job.weekStart job) ->
                cell j <> (e, d, Job.weekStart job))
      by (intros N E; apply N; now rewrite E).
    destruct (String.eqb_spec (Job.id j) jobId) as [Eid|Nid].
    + split; [repeat split | intros; contradiction].
    + destruct ((Job.editorId job === e) && (Job.scheduledDate job =? d));
        decide_tests; (split; [repeat split|]); intros _;
        repeat split; intros; auto;
        try (unfold with_order in *; simpl in *; exfalso; lia);
        try (exfalso; tauto).
  - eexists. split; [exact (moveJob_not_found _ _ _ _ _ Hjob)|].
    apply Forall2_same. intros j _. intuition.
Qed.

(** ** C10: the week of a job *)

(** C10. A move never changes the week-start of any job, the moved one
    included; a job other than the moved one is changed only if its
    week-start is that of the moved job, so that jobs of other weeks are
    returned as they were. *)
Theorem moveJob_keeps_week :
  forall prev jobId newEditorId newDayIndex newOrder,
  exists out,
    moveJob prev jobId newEditorId newDayIndex newOrder = Normal out /\
    Forall2 (week_kept prev jobId) prev out.
Proof.
  intros prev jobId e d o. unfold week_kept.
  destruct (movedJob prev jobId) as [job|] eqn:Hjob.
  - eexists. split; [exact (moveJob_found _ _ _ _ _ _ Hjob)|].
    apply Forall2_map_self. intros j _.
    unfold moveJob_map.
    destruct (String.eqb_spec (Job.id j) jobId) as [Eid|Nid].
    + split; [reflexivity | intros; contradiction].
    + destruct ((Job.editorId job === e) && (Job.scheduledDate job =? d));
        decide_tests; (split; [reflexivity|]); intros _;
        (split;
         [ intros Hne;
           first [ exfalso; apply Hne; reflexivity
                 | exists job; split; [reflexivity | assumption] ]
         | intros Hw;
           first [ reflexivity
                 | exfalso; apply (Hw job eq_refl); assumption ] ]).
  - eexists. split; [exact (moveJob_not_found _ _ _ _ _ Hjob)|].
    apply Forall2_same. intros j _. split; [reflexivity|].
    intros _. split; [congruence | reflexivity].
Qed.

(** ** C5: moving a job onto itself *)

Lemma movedJob_unique (prev : list Job.t) (j : Job.t) :
  unique_ids prev -> In j prev -> movedJob prev (Job.id j) = Some j.
Proof.
  intros Hnd Hj. unfold movedJob.
  destruct (find (fun x => Job.id x === Job.id j) prev) as [job|] eqn:F.
  - apply find_some in F. destruct F as [Hin E]. apply String.eqb_eq in E.
    f_equal. exact (NoDup_map_injective Job.id prev Hnd job j Hin Hj E).
  - apply (find_none _ _ F) in Hj. now rewrite String.eqb_refl in Hj.
Qed.

(** C5. In a collection whose identifiers are pairwise distinct, moving
    a job to its own editor, day and order returns the collection
    itself: every job keeps its order, editor and day. *)
Theorem moveJob_to_own_place :
  forall prev j,
    unique_ids prev ->
    In j prev ->
    moveJob prev (Job.id j) (Job.editorId j) (Job.scheduledDate j) (Job.order j)
    = Normal prev.
Proof.
  intros prev j Hnd Hj.
  rewrite (moveJob_found _ _ _ _ _ j (movedJob_unique prev j Hnd Hj)).
  f_equal. rewrite <- (map_id prev) at 2. apply map_ext_in. intros x Hx.
  unfold moveJob_map. rewrite String.eqb_refl, Z.eqb_refl. simpl.
  destruct (String.eqb_spec (Job.id x) (Job.id j)) as [E|N].
  - rewrite (NoDup_map_injective Job.id prev Hnd x j Hx Hj E).
    destruct j; reflexivity.
  - decide_tests; first [reflexivity | exfalso; lia].
Qed.

Lemma four_job_cell_ids : unique_ids four_job_cell.
Proof.
  unfold unique_ids. simpl. repeat constructor; simpl; intuition discriminate.
Defined.

Lemma moveJob_to_own_place_witness :
  let j := job_at "c" "e1" 2 "2024-01-01" 2 in
  unique_ids four_job_cell /\ In j four_job_cell /\
  moveJob four_job_cell "c" "e1" 2 2 = Normal four_job_cell.
Proof.
  assert (H : In (job_at "c" "e1" 2 "2024-01-01" 2) four_job_cell)
    by (simpl; auto).
  split; [exact four_job_cell_ids|]. split; [exact H|].
  exact (moveJob_to_own_place four_job_cell _ four_job_cell_ids H).
Defined.

(** ** C1: an in-cell move keeps the orders 0, ..., n-1 *)

Lemma map_filter_map {A B : Type} (p : A -> bool) (g : A -> A) (h : A -> B)
    (f : B -> B) (l : list A) :
  (forall x, In x l -> p (g x) = p x) ->
  (forall x, In x l -> p x = true -> h (g x) = f (h x)) ->
  map h (filter p (map g l)) = map f (map h (filter p l)).
Proof.
  induction l as [|a l IH]; simpl; intros Hp Hh; [reflexivity|].
  rewrite (Hp a (or_introl eq_refl)).
  destruct (p a) eqn:Pa; simpl.
  - rewrite (Hh a (or_introl eq_refl) Pa). f_equal.
    apply IH; intros; [apply Hp | apply Hh]; auto.
  - apply IH; intros; [apply Hp | apply Hh]; auto.
Qed.

Lemma reindex_range (n oldOrder newOrder k : Z) :
  0 <= oldOrder < n -> 0 <= newOrder < n -> 0 <= k < n ->
  0 <= reindex oldOrder newOrder k < n.
Proof. intros. unfold reindex. decide_tests; lia. Qed.

Lemma reindex_injective (oldOrder newOrder a b : Z) :
  reindex oldOrder newOrder a = reindex oldOrder newOrder b -> a = b.
Proof. unfold reindex. decide_tests; lia. Qed.

Lemma reindex_onto (n oldOrder newOrder k : Z) :
  0 <= oldOrder < n -> 0 <= newOrder < n -> 0 <= k < n ->
  exists a, 0 <= a < n /\ reindex oldOrder newOrder a = k.
Proof.
  intros Ho Hn Hk.
  destruct (Z.eq_dec k newOrder) as [->|Nk].
  - exists oldOrder. split; [lia|]. unfold reindex. now rewrite Z.eqb_refl.
  - destruct (Z_lt_le_dec oldOrder newOrder) as [L|L].
    + destruct (Z_le_dec oldOrder k) as [K|K].
      * destruct (Z_lt_dec k newOrder) as [K'|K'].
        -- exists (k + 1). split; [lia|]. unfold reindex. decide_tests; lia.
        -- exists k. split; [lia|]. unfold reindex. decide_tests; lia.
      * exists k. split; [lia|]. unfold reindex. decide_tests; lia.
    + destruct (Z_lt_dec newOrder k) as [K|K].
      * destruct (Z_le_dec k oldOrder) as [K'|K'].
        -- exists (k - 1). split; [lia|]. unfold reindex. decide_tests; lia.
        -- exists k. split; [lia|]. unfold reindex. decide_tests; lia.
      * exists k. split; [lia|]. unfold reindex. decide_tests; lia.
Qed.

Lemma reindex_exactly (n : nat) (oldOrder newOrder : Z) (l : list Z) :
  0 <= oldOrder < Z.of_nat n -> 0 <= newOrder < Z.of_nat n ->
  exactly_0_to n l -> exactly_0_to n (map (reindex oldOrder newOrder) l).
Proof.
  intros Ho Hn (Hlen & Hnd & Hin).
  split; [|split; [|intros k; split]].
  - now rewrite length_map.
  - apply NoDup_map_NoDup_ForallPairs; [|exact Hnd].
    intros a b _ _. apply reindex_injective.
  - intros H. apply in_map_iff in H. destruct H as (a & <- & Ha).
    apply Hin in Ha. now apply reindex_range.
  - intros Hk. destruct (reindex_onto _ _ _ k Ho Hn Hk) as (a & Ha & <-).
    apply in_map. now apply Hin.
Qed.

(** C1. In a collection with pairwise distinct identifiers, let the
    cell of the moved job hold [n] jobs whose orders are exactly
    0, ..., n-1.  After a move to the same editor and day with
    [newOrder] between 0 and n-1, the orders found in that cell are
    again exactly 0, ..., n-1, each once. *)
Theorem moveJob_same_cell_contiguous :
  forall prev jobId newEditorId newDayIndex newOrder job n,
    unique_ids prev ->
    movedJob prev jobId = Some job ->
    exactly_0_to n (cell_orders (cell job) prev) ->
    newEditorId = Job.editorId job ->
    newDayIndex = Job.scheduledDate job ->
    0 <= newOrder <= Z.of_nat n - 1 ->
    exists out,
      moveJob prev jobId newEditorId newDayIndex newOrder = Normal out /\
      exactly_0_to n (cell_orders (cell job) out).
Proof.
  intros prev jobId e d o job n Hids Hjob Hcell -> -> Ho.
  destruct (movedJob_Some _ _ _ Hjob) as [Hin Hid].
  eexists. split; [exact (moveJob_found _ _ _ _ _ _ Hjob)|].
  rewrite String.eqb_refl, Z.eqb_refl. simpl.
  assert (Hjc : In job (filter (in_cell (cell job)) prev)).
  { apply filter_In. split; [exact Hin|]. now apply in_cell_true. }
  assert (Hold : 0 <= Job.order job < Z.of_nat n).
  { apply Hcell. unfold cell_orders. now apply in_map. }
  unfold cell_orders.
  rewrite (map_filter_map _ _ Job.order (reindex (Job.order job) o)).
  - apply reindex_exactly; [exact Hold | lia | exact Hcell].
  - intros x Hx. unfold moveJob_map.
    destruct (String.eqb_spec (Job.id x) jobId) as [E|N].
    + assert (x = job) as ->
        by (apply (NoDup_map_injective Job.id prev Hids); congruence).
      unfold in_cell, cell. simpl. now rewrite !String.eqb_refl, Z.eqb_refl.
    + decide_tests; reflexivity.
  - intros x Hx Hc. unfold moveJob_map, reindex.
    destruct (String.eqb_spec (Job.id x) jobId) as [E|N].
    + assert (x = job) as ->
        by (apply (NoDup_map_injective Job.id prev Hids); congruence).
      simpl. now rewrite Z.eqb_refl.
    + assert (Hne : Job.order x <> Job.order job).
      { intros Eo. apply N. rewrite <- Hid. f_equal.
        destruct Hcell as (_ & Hnd & _).
        apply (NoDup_map_injective Job.order _ Hnd); auto.
        apply filter_In. now split. }
      apply in_cell_true, cell_eq_cell in Hc. destruct Hc as (E1 & E2 & E3).
      rewrite E1, E2, E3, !String.eqb_refl, Z.eqb_refl. simpl.
      decide_tests; lia.
Qed.

Lemma four_job_cell_orders :
  exactly_0_to 4 (cell_orders ("e1", 2, "2024-01-01") four_job_cell).
Proof.
  split; [reflexivity|]. split; [|intros k; split].
  - simpl. repeat constructor; simpl; intuition lia.
  - simpl. lia.
  - simpl. lia.
Defined.

Lemma moveJob_same_cell_contiguous_witness :
  unique_ids four_job_cell /\
  movedJob four_job_cell "b" = Some (job_at "b" "e1" 2 "2024-01-01" 1) /\
  exactly_0_to 4 (cell_orders ("e1", 2, "2024-01-01") four_job_cell) /\
  0 <= 3 <= Z.of_nat 4 - 1 /\
  exists out,
    moveJob four_job_cell "b" "e1" 2 3 = Normal out /\
    exactly_0_to 4 (cell_orders ("e1", 2, "2024-01-01") out).
Proof.
  assert (H : 0 <= 3 <= Z.of_nat 4 - 1) by (simpl; lia).
  split; [exact four_job_cell_ids|]. split; [reflexivity|].
  split; [exact four_job_cell_orders|]. split; [exact H|].
  exact (moveJob_same_cell_contiguous four_job_cell "b" "e1" 2 3
           (job_at "b" "e1" 2 "2024-01-01" 1) 4
           four_job_cell_ids eq_refl four_job_cell_orders eq_refl eq_refl H).
Defined.

(** ** C7: the plan limit of [addEditor] *)

(** C7, as stated, fails without a signed-in user: with two editors and
    the free plan the count is at the limit, yet [addEditor] returns
    normally instead of raising the plan-limit error. *)
Lemma addEditor_signed_out_at_limit :
  let st := mkPlanner None false [alice; bob] [] "2024-01-01" in
  let be := answering_backend "free" in
  ~ (rejected_at_limit st (addEditor st st be carol) <->
     Z.of_nat (List.length (editors st)) >= plan_limit be).
Proof.
  intros st be [_ H].
  assert (L : Z.of_nat (List.length (editors st)) >= plan_limit be)
    by (vm_compute; discriminate).
  destruct (H L) as [E _]. discriminate E.
Qed.

(** C7, amended.  With a signed-in user, [addEditor] ends in the
    plan-limit error, leaving the local state as it was and sending no
    insertion, exactly when the number of editors is at or above the
    plan's limit (10 for the pro tier, 2 otherwise); without a user it
    returns at once, changing and sending nothing.  The number of
    editors is the one of the render the call comes from, and the state
    left as it was is the one the call meets, whether or not the two
    are the same.  Adding a third editor under the free plan raises the
    error and only reads the profile. *)
Theorem addEditor_plan_limit :
  (forall render st be editor u,
      user render = Some u ->
      (rejected_at_limit st (addEditor render st be editor) <->
       Z.of_nat (List.length (editors render)) >= plan_limit be)) /\
  (forall render st be editor,
      user render = None -> addEditor render st be editor = (st, [], Normal None)) /\
  (let st := mkPlanner (Some (User.mk "u1")) false [alice; bob] [] "2024-01-01" in
   addEditor st st (answering_backend "free") carol
   = (st, [select_profile], Throw "PLAN_LIMIT_REACHED")).
Proof.
  split; [|split; [|reflexivity]].
  - intros render st be editor u Hu.
    unfold addEditor, rejected_at_limit, plan_limit, plan_tier. rewrite Hu.
    set (limit := if _ === "pro" then 10 else 2).
    rewrite Z.geb_leb.
    destruct (Z.leb_spec limit (Z.of_nat (List.length (editors render)))) as [L|L].
    + split; [lia|]. intros _. repeat split.
    + split; [|lia].
      destruct (editors_insert be (User.id u) (input_name editor)
                               (input_weeklyCapacity editor));
        intros (E & _ & I); exfalso;
        [discriminate E | discriminate I | discriminate I].
  - intros render st be editor Hu. unfold addEditor. now rewrite Hu.
Qed.

Lemma addEditor_plan_limit_witness :
  let st := mkPlanner (Some (User.mk "u1")) false [alice] [] "2024-01-01" in
  let be := answering_backend "pro" in
  user st = Some (User.mk "u1") /\
  (rejected_at_limit st (addEditor st st be carol) <->
   Z.of_nat (List.length (editors st)) >= plan_limit be).
Proof.
  split; [reflexivity|].
  exact (proj1 addEditor_plan_limit
           (mkPlanner (Some (User.mk "u1")) false [alice] [] "2024-01-01")
           (mkPlanner (Some (User.mk "u1")) false [alice] [] "2024-01-01")
           (answering_backend "pro") carol (User.mk "u1") eq_refl).
Defined.

(** ** C9: [deleteEditor] and the jobs *)

(** C9, as stated, fails when the backend call is rejected: the reload
    replaces the local jobs by the stored ones, so the job assigned to
    ["e1"] locally comes back assigned to ["e2"]. *)
Lemma deleteEditor_rejected_reloads_jobs :
  let st := mkPlanner (Some (User.mk "u1")) false [alice]
                      [job_at "a" "e1" 0 "2024-01-01" 0] "2024-01-01" in
  let st' := fst (deleteEditor st failing_delete_backend "e1") in
  map Job.editorId (jobs st) = ["e1"] /\
  map Job.editorId (jobs st') = ["e2"] /\
  jobs st' <> jobs st.
Proof.
  split; [reflexivity|]. split; [reflexivity|]. discriminate.
Qed.

(** C9, amended.  Whenever the backend call is not rejected,
    [deleteEditor] removes the editors carrying the identifier from the
    editor collection, keeps the other editors in place, leaves the job
    collection and the rest of the state as they were, and sends only
    the deletion of that editor.  When the call is rejected the state is
    the one [fetchData] reloads after the local removal. *)
Theorem deleteEditor_keeps_jobs :
  (forall st be editorId,
      (forall message, editors_delete be editorId <> Rejected message) ->
      let '(st', log) := deleteEditor st be editorId in
      jobs st' = jobs st /\
      editors st' =
        filter (fun editor => negb (Editor.id editor === editorId)) (editors st) /\
      user st' = user st /\ loading st' = loading st /\
      currentWeekStartStr st' = currentWeekStartStr st /\
      log = [delete_editor editorId; toast_success "Editor deleted"]) /\
  (forall st be editorId message,
      editors_delete be editorId = Rejected message ->
      fst (deleteEditor st be editorId) =
      fst (fetchData
             (setEditors
                (filter (fun editor => negb (Editor.id editor === editorId))) st)
             be)).
Proof.
  split.
  - intros st be editorId H. unfold deleteEditor.
    destruct (editors_delete be editorId) as [[]|m|m] eqn:E;
      [| | exfalso; exact (H m eq_refl)]; repeat split.
  - intros st be editorId m E. unfold deleteEditor. rewrite E.
    now destruct (fetchData _ be).
Qed.

Lemma deleteEditor_keeps_jobs_witness :
  let st := mkPlanner (Some (User.mk "u1")) false [alice; bob]
                      [job_at "a" "e1" 0 "2024-01-01" 0] "2024-01-01" in
  let be := answering_backend "free" in
  (forall message, editors_delete be "e1" <> Rejected message) /\
  jobs (fst (deleteEditor st be "e1")) = jobs st /\
  editors (fst (deleteEditor st be "e1")) = [bob].
Proof.
  assert (H : forall message,
             editors_delete (answering_backend "free") "e1" <> Rejected message)
    by (intros message; discriminate).
  split; [exact H|].
  pose proof (proj1 deleteEditor_keeps_jobs
                (mkPlanner (Some (User.mk "u1")) false [alice; bob]
                           [job_at "a" "e1" 0 "2024-01-01" 0] "2024-01-01")
                (answering_backend "free") "e1" H) as K.
  simpl in K. destruct K as (K1 & K2 & _). split; [exact K1 | exact K2].
Defined.

(** ** Rounding and capping binary64 numbers *)

Lemma digits2_pos_bounds (m : positive) :
  2 ^ (Zpos (digits2_pos m) - 1) <= Zpos m < 2 ^ Zpos (digits2_pos m).
Proof.
  induction m as [p IH|p IH|]; simpl digits2_pos.
  - rewrite Pos2Z.inj_succ.
    replace (Z.succ (Zpos (digits2_pos p)) - 1) with (Z.succ (Zpos (digits2_pos p) - 1)) by lia.
    rewrite !Z.pow_succ_r by lia. lia.
  - rewrite Pos2Z.inj_succ.
    replace (Z.succ (Zpos (digits2_pos p)) - 1) with (Z.succ (Zpos (digits2_pos p) - 1)) by lia.
    rewrite !Z.pow_succ_r by lia. lia.
  - simpl. lia.
Qed.

Lemma binary_round_aux_canonical s m e :
  canonical_mantissa prec emax m e = true -> e <= emax - prec ->
  binary_round_aux prec emax s (Zpos m) e loc_Exact = S754_finite s m e.
Proof.
  intros C B. unfold canonical_mantissa in C. apply Z.eqb_eq in C.
  unfold binary_round_aux, shr_fexp, Zdigits2, shr_record_of_loc. rewrite C, Z.sub_diag.
  unfold shr. cbv beta iota. unfold loc_of_shr_record, round_nearest_even, shr_m.
  rewrite C, Z.sub_diag. cbv beta iota.
  destruct (Z.leb_spec e (emax - prec)); [reflexivity | lia].
Qed.

Lemma digits2_pos_iter (n k : positive) :
  digits2_pos (Pos.iter xO n k) = (digits2_pos n + k)%positive.
Proof.
  induction k as [|k IH] using Pos.peano_ind.
  - simpl. lia.
  - rewrite Pos.iter_succ. simpl. rewrite IH. lia.
Qed.

Lemma Zpos_iter_xO (n k : positive) :
  Zpos (Pos.iter xO n k) = Zpos n * 2 ^ Zpos k.
Proof.
  induction k as [|k IH] using Pos.peano_ind.
  - simpl. lia.
  - rewrite Pos.iter_succ, Pos2Z.inj_xO, IH, Pos2Z.inj_succ, Z.pow_succ_r by lia. lia.
Qed.

(** An integer of at most 53 bits is represented exactly. *)
Lemma binary_round_integer s (n : positive) :
  Zpos (digits2_pos n) <= 53 ->
  exists m, binary_round prec emax s n 0 = S754_finite s m (Zpos (digits2_pos n) - 53)
            /\ Zpos m = Zpos n * 2 ^ (53 - Zpos (digits2_pos n)).
Proof.
  intros D. unfold binary_round, shl_align.
  assert (F : fexp prec emax (Zpos (digits2_pos n) + 0) = Zpos (digits2_pos n) - 53).
  { unfold fexp, emin, prec, emax. lia. }
  rewrite F, Z.sub_0_r.
  destruct (Zpos (digits2_pos n) - 53) as [|p|p] eqn:E; [| lia |].
  - exists n. split.
    + apply binary_round_aux_canonical.
      * unfold canonical_mantissa. apply Z.eqb_eq. unfold fexp, emin, prec, emax. lia.
      * unfold emax, prec. lia.
    + replace (53 - Zpos (digits2_pos n)) with 0 by lia. lia.
  - exists (Pos.iter xO n p). split.
    + apply binary_round_aux_canonical.
      * unfold canonical_mantissa. apply Z.eqb_eq. rewrite digits2_pos_iter.
        unfold fexp, emin, prec, emax. lia.
      * unfold emax, prec. lia.
    + rewrite Zpos_iter_xO. f_equal. f_equal. lia.
Qed.

Lemma lit_100 : lit 100 = S754_finite false M100 (-46).
Proof. vm_compute. reflexivity. Qed.

Lemma Math_round_100 : Math_round (lit 100) = lit 100.
Proof. vm_compute. reflexivity. Qed.

Lemma Math_min_100_finite (m : positive) (e : Z) :
  Math_min (lit 100) (S754_finite false m e) =
  match -46 ?= e with
  | Lt => lit 100
  | Gt => S754_finite false m e
  | Eq => match Pos.compare M100 m with
          | Lt => lit 100
          | _ => S754_finite false m e
          end
  end.
Proof.
  rewrite lit_100. unfold Math_min, SFcompare.
  destruct (-46 ?= e); reflexivity.
Qed.

Lemma Math_min_100_not_positive (x : number) :
  not_positive x -> Math_min (lit 100) x = x.
Proof.
  rewrite lit_100. destruct x as [s|s| |s m e]; simpl; intros H; subst; reflexivity.
Qed.

Lemma binary_round_aux_sign s mx ex lx :
  match binary_round_aux prec emax s mx ex lx with
  | S754_zero s' | S754_infinity s' | S754_finite s' _ _ => s' = s
  | S754_nan => True
  end.
Proof.
  unfold binary_round_aux.
  destruct (shr_fexp prec emax mx ex lx) as [mrs' e'].
  destruct (shr_fexp prec emax _ e' loc_Exact) as [mrs'' e''].
  destruct (shr_m mrs''); try exact I; try reflexivity.
  destruct (e'' <=? emax - prec); reflexivity.
Qed.

Lemma binary_normalize_not_positive (n : Z) :
  n <= 0 -> not_positive (binary_normalize prec emax n 0 true).
Proof.
  intros H. destruct n as [|p|p]; [exact I | lia |].
  unfold binary_normalize, binary_round.
  destruct (shl_align p 0 _) as [mz ez].
  pose proof (binary_round_aux_sign true (Zpos mz) ez loc_Exact) as S.
  destruct (binary_round_aux prec emax true (Zpos mz) ez loc_Exact); simpl; auto.
Qed.

Lemma round_integer_negative (m : positive) (k : Z) :
  0 < k -> (- Zpos m * 2 + 2 ^ k) / 2 ^ (k + 1) <= 0.
Proof.
  intros K.
  assert (P : 0 < 2 ^ k) by (apply Z.pow_pos_nonneg; lia).
  assert (Q : 2 ^ (k + 1) = 2 * 2 ^ k) by (rewrite Z.pow_add_r by lia; lia).
  enough ((- Zpos m * 2 + 2 ^ k) / 2 ^ (k + 1) < 1) by lia.
  apply Z.div_lt_upper_bound; lia.
Qed.

(** The integer closed form, for a positive integer below 2^53. *)
Lemma lit_positive (n : Z) :
  0 < n < 2 ^ 53 ->
  exists m d, binary_normalize prec emax n 0 false = S754_finite false m (d - 53)
              /\ Zpos m = n * 2 ^ (53 - d) /\ 1 <= d <= 53
              /\ 2 ^ (d - 1) <= n < 2 ^ d.
Proof.
  intros [Hp Hlt]. destruct n as [|p|p]; try lia.
  pose proof (digits2_pos_bounds p) as B.
  assert (D : Zpos (digits2_pos p) <= 53).
  { destruct (Z_le_gt_dec (Zpos (digits2_pos p)) 53) as [L|G]; [exact L|].
    exfalso. assert (2 ^ 53 <= 2 ^ (Zpos (digits2_pos p) - 1))
      by (apply Z.pow_le_mono_r; lia). lia. }
  destruct (binary_round_integer false p D) as (m & E & V).
  exists m, (Zpos (digits2_pos p)). repeat split; try assumption; try lia.
Qed.

Lemma Math_min_100_lit (n : Z) :
  0 <= n < 2 ^ 53 ->
  Math_min (lit 100) (lit n) = if n <=? 100 then lit n else lit 100.
Proof.
  intros [H0 H1].
  destruct (Z.eq_dec n 0) as [->|N]; [vm_compute; reflexivity|].
  destruct (lit_positive n) as (m & d & E & V & D & B); [lia|].
  unfold lit at 2 3. rewrite E, Math_min_100_finite.
  destruct (Z.compare_spec (-46) (d - 53)) as [C|C|C].
  - assert (d = 7) by lia. subst d.
    rewrite Pos2Z.inj_compare, V. change (53 - 7) with 46.
    change (Zpos M100) with (100 * 2 ^ 46).
    destruct (Z.compare_spec (100 * 2 ^ 46) (n * 2 ^ 46)) as [K|K|K];
      destruct (Z.leb_spec n 100); try reflexivity; exfalso; lia.
  - assert (2 ^ 7 <= 2 ^ (d - 1)) by (apply Z.pow_le_mono_r; lia).
    destruct (Z.leb_spec n 100); [exfalso; lia | reflexivity].
  - assert (2 ^ d <= 2 ^ 6) by (apply Z.pow_le_mono_r; lia).
    destruct (Z.leb_spec n 100); [reflexivity | exfalso; lia].
Qed.

(** What validity says about a mantissa. *)
Lemma valid_finite (s : bool) (m : positive) (e : Z) :
  valid_binary prec emax (S754_finite s m e) = true ->
  Zpos m < 2 ^ 53 /\ (-1074 < e -> 2 ^ 52 <= Zpos m).
Proof.
  unfold valid_binary, bounded, canonical_mantissa, fexp, emin, prec, emax.
  intros H. apply andb_true_iff in H. destruct H as [C _]. apply Z.eqb_eq in C.
  pose proof (digits2_pos_bounds m) as B.
  split.
  - assert (2 ^ Zpos (digits2_pos m) <= 2 ^ 53) by (apply Z.pow_le_mono_r; lia). lia.
  - intros E. assert (Zpos (digits2_pos m) = 53) as D by lia.
    rewrite D in B. exact (proj1 B).
Qed.

Lemma half_up_bounds (m k : Z) : 0 < m -> 0 < k -> 0 <= half_up m k <= m.
Proof.
  intros M K. unfold half_up.
  assert (P : 0 < 2 ^ k) by (apply Z.pow_pos_nonneg; lia).
  assert (Q : 2 ^ (k + 1) = 2 * 2 ^ k) by (rewrite Z.pow_add_r by lia; lia).
  assert (R : 2 <= 2 ^ k) by (change 2 with (2 ^ 1) at 1; apply Z.pow_le_mono_r; lia).
  split.
  - apply Z.div_pos; lia.
  - enough ((m * 2 + 2 ^ k) / 2 ^ (k + 1) < m + 1) by lia.
    apply Z.div_lt_upper_bound; nia.
Qed.

Lemma half_up_large (m k : Z) : 2 ^ 52 <= m -> 0 < k < 46 -> 128 <= half_up m k.
Proof.
  intros M K. unfold half_up.
  assert (P : 0 < 2 ^ k) by (apply Z.pow_pos_nonneg; lia).
  assert (Q : 2 ^ (k + 1) = 2 * 2 ^ k) by (rewrite Z.pow_add_r by lia; lia).
  assert (R : 2 ^ k <= 2 ^ 45) by (apply Z.pow_le_mono_r; lia).
  apply Z.div_le_lower_bound; lia.
Qed.

Lemma half_up_small (m k : Z) : 0 < m < 2 ^ 53 -> 46 < k -> half_up m k <= 64.
Proof.
  intros M K. unfold half_up.
  assert (Q : 2 ^ (k + 1) = 2 * 2 ^ k) by (rewrite Z.pow_add_r by lia; lia).
  assert (R : 2 ^ 47 <= 2 ^ k) by (apply Z.pow_le_mono_r; lia).
  enough ((m * 2 + 2 ^ k) / 2 ^ (k + 1) < 65) by lia.
  apply Z.div_lt_upper_bound; lia.
Qed.

Lemma Math_round_positive (m : positive) (e : Z) :
  e < 0 -> Math_round (S754_finite false m e) = lit (half_up (Zpos m) (- e)).
Proof.
  intros E. unfold Math_round, lit, half_up.
  destruct (Z.leb_spec 0 e); [lia|].
  simpl cond_Zopp. now replace (1 - e) with (- e + 1) by lia.
Qed.

Lemma Zdigits2_bounds (x : Z) :
  0 < x -> 0 < Zdigits2 x /\ 2 ^ (Zdigits2 x - 1) <= x < 2 ^ Zdigits2 x.
Proof.
  intros H. destruct x as [|p|p]; try lia. simpl Zdigits2.
  split; [lia | apply digits2_pos_bounds].
Qed.

Lemma Zdigits2_unique (x k : Z) :
  0 < x -> 2 ^ (k - 1) <= x < 2 ^ k -> Zdigits2 x = k.
Proof.
  intros H [L U]. destruct (Zdigits2_bounds x H) as (P & L' & U').
  assert (K : 0 < k).
  { destruct (Z_lt_le_dec 0 k) as [?|N]; [assumption|].
    exfalso. destruct (Z.eq_dec k 0) as [->|]; [simpl in U; lia|].
    rewrite Z.pow_neg_r in U by lia. lia. }
  destruct (Z.lt_trichotomy (Zdigits2 x) k) as [C|[C|C]]; [exfalso| exact C | exfalso].
  - assert (2 ^ Zdigits2 x <= 2 ^ (k - 1)) by (apply Z.pow_le_mono_r; lia). lia.
  - assert (2 ^ k <= 2 ^ (Zdigits2 x - 1)) by (apply Z.pow_le_mono_r; lia). lia.
Qed.

Lemma Zdigits2_div (x n : Z) :
  0 < x -> 0 <= n < Zdigits2 x ->
  0 < x / 2 ^ n /\ Zdigits2 (x / 2 ^ n) = Zdigits2 x - n.
Proof.
  intros H N. destruct (Zdigits2_bounds x H) as (P & L & U).
  assert (Pn : 0 < 2 ^ n) by (apply Z.pow_pos_nonneg; lia).
  assert (A : 2 ^ (Zdigits2 x - n - 1) <= x / 2 ^ n).
  { apply Z.div_le_lower_bound; [lia|].
    rewrite <- Z.pow_add_r by lia.
    now replace (n + (Zdigits2 x - n - 1)) with (Zdigits2 x - 1) by lia. }
  assert (B : x / 2 ^ n < 2 ^ (Zdigits2 x - n)).
  { apply Z.div_lt_upper_bound; [lia|].
    rewrite <- Z.pow_add_r by lia.
    now replace (n + (Zdigits2 x - n)) with (Zdigits2 x) by lia. }
  assert (Q : 0 < 2 ^ (Zdigits2 x - n - 1)) by (apply Z.pow_pos_nonneg; lia).
  split; [lia|]. apply Zdigits2_unique; [lia|]. split; [exact A | exact B].
Qed.

Lemma Zdigits2_div_zero (x n : Z) :
  0 < x -> Zdigits2 x <= n -> x / 2 ^ n = 0.
Proof.
  intros H N. destruct (Zdigits2_bounds x H) as (P & L & U).
  assert (2 ^ Zdigits2 x <= 2 ^ n) by (apply Z.pow_le_mono_r; lia).
  apply Z.div_small. lia.
Qed.

Lemma Zdigits2_succ (x : Z) :
  0 < x ->
  Zdigits2 (x + 1) = Zdigits2 x \/
  (Zdigits2 (x + 1) = Zdigits2 x + 1 /\ x + 1 = 2 ^ Zdigits2 x).
Proof.
  intros H. destruct (Zdigits2_bounds x H) as (P & L & U).
  destruct (Z_lt_le_dec (x + 1) (2 ^ Zdigits2 x)) as [C|C].
  - left. apply Zdigits2_unique; lia.
  - right. assert (E : x + 1 = 2 ^ Zdigits2 x) by lia. split; [|exact E].
    apply Zdigits2_unique; [lia|]. rewrite E.
    replace (Zdigits2 x + 1 - 1) with (Zdigits2 x) by lia.
    split; [lia|]. apply Z.pow_lt_mono_r; lia.
Qed.

Lemma shr_1_m (mrs : shr_record) :
  0 <= shr_m mrs -> shr_m (shr_1 mrs) = shr_m mrs / 2.
Proof.
  destruct mrs as [m r s]. simpl. intros H.
  destruct m as [|[p|p|]|p]; simpl; try reflexivity; try lia.
  - apply Z.div_unique with 1; lia.
  - apply Z.div_unique with 0; lia.
Qed.

Lemma iter_pos_shr_1_m (p : positive) (mrs : shr_record) :
  0 <= shr_m mrs -> shr_m (iter_pos shr_1 p mrs) = shr_m mrs / 2 ^ Zpos p.
Proof.
  revert mrs. induction p as [p IH|p IH|]; intros mrs H; simpl iter_pos.
  - assert (H1 : 0 <= shr_m (shr_1 mrs)) by (rewrite shr_1_m by lia; apply Z.div_pos; lia).
    assert (P : 0 < 2 ^ Zpos p) by (apply Z.pow_pos_nonneg; lia).
    assert (H2 : 0 <= shr_m (iter_pos shr_1 p (shr_1 mrs)))
      by (rewrite IH by lia; apply Z.div_pos; lia).
    rewrite IH, IH, shr_1_m by lia.
    rewrite !Z.div_div by lia. f_equal.
    replace (Zpos p~1) with (1 + Zpos p + Zpos p) by lia.
    rewrite !Z.pow_add_r by lia. change (2 ^ 1) with 2. ring.
  - assert (P : 0 < 2 ^ Zpos p) by (apply Z.pow_pos_nonneg; lia).
    assert (H2 : 0 <= shr_m (iter_pos shr_1 p mrs))
      by (rewrite IH by lia; apply Z.div_pos; lia).
    rewrite IH, IH by lia. rewrite Z.div_div by lia. f_equal.
    replace (Zpos p~0) with (Zpos p + Zpos p) by lia.
    rewrite Z.pow_add_r by lia. ring.
  - now apply shr_1_m.
Qed.

Lemma shr_spec (mrs : shr_record) (e n : Z) :
  0 <= shr_m mrs ->
  shr_m (fst (shr mrs e n)) = shr_m mrs / 2 ^ Z.max 0 n /\
  snd (shr mrs e n) = e + Z.max 0 n.
Proof.
  intros H. destruct n as [|p|p]; simpl.
  - rewrite Z.div_1_r. split; [reflexivity | lia].
  - split; [now apply iter_pos_shr_1_m | reflexivity].
  - rewrite Z.div_1_r. split; [reflexivity | lia].
Qed.

Lemma round_nearest_even_cases (m : Z) (l : location) :
  round_nearest_even m l = m \/ round_nearest_even m l = m + 1.
Proof.
  destruct l as [|[]]; simpl; auto. destruct (Z.even m); auto.
Qed.

Lemma shr_record_of_loc_m (m : Z) (l : location) :
  shr_m (shr_record_of_loc m l) = m.
Proof. destruct l as [|[]]; reflexivity. Qed.

Lemma shr_fexp_spec (m e : Z) (l : location) :
  0 <= m ->
  let n := Z.max 0 (fexp prec emax (Zdigits2 m + e) - e) in
  shr_m (fst (shr_fexp prec emax m e l)) = m / 2 ^ n /\
  snd (shr_fexp prec emax m e l) = e + n.
Proof.
  intros H n. unfold shr_fexp.
  pose proof (shr_spec (shr_record_of_loc m l) e
                (fexp prec emax (Zdigits2 m + e) - e)) as S.
  rewrite shr_record_of_loc_m in S. exact (S H).
Qed.

Lemma fexp_53 (x : Z) : fexp prec emax x = Z.max (x - 53) (-1074).
Proof. unfold fexp, emin, prec, emax. lia. Qed.

(** Rounding a mantissa of at least 53 bits yields a valid number. *)
Lemma binary_round_aux_valid (s : bool) (m : positive) (e : Z) (l : location) :
  53 <= Zpos (digits2_pos m) ->
  valid_binary prec emax (binary_round_aux prec emax s (Zpos m) e l) = true.
Proof.
  intros D. unfold binary_round_aux.
  pose proof (shr_fexp_spec (Zpos m) e l ltac:(lia)) as S1.
  destruct (shr_fexp prec emax (Zpos m) e l) as [mrs' e']. cbn [fst snd] in S1.
  destruct S1 as [M' E'].
  set (m1 := round_nearest_even (shr_m mrs') (loc_of_shr_record mrs')).
  assert (P1 : 0 <= shr_m mrs').
  { rewrite M'. apply Z.div_pos; [lia|]. apply Z.pow_pos_nonneg; lia. }
  assert (C1 : m1 = shr_m mrs' \/ m1 = shr_m mrs' + 1)
    by apply round_nearest_even_cases.
  pose proof (shr_fexp_spec m1 e' loc_Exact ltac:(lia)) as S2.
  destruct (shr_fexp prec emax m1 e' loc_Exact) as [mrs'' e'']. cbn [fst snd] in S2.
  destruct S2 as [M'' E''].
  destruct (shr_m mrs'') as [|m''|m''] eqn:X; try reflexivity.
  destruct (Z.leb_spec e'' (emax - prec)) as [B|B]; [|reflexivity].
  unfold valid_binary, bounded, canonical_mantissa.
  apply andb_true_iff. split; [|now apply Z.leb_le].
  apply Z.eqb_eq.
  change (Zpos (digits2_pos m'')) with (Zdigits2 (Zpos m'')).
  change (Zpos (digits2_pos m)) with (Zdigits2 (Zpos m)) in D.
  rewrite fexp_53 in *.
  remember (Zdigits2 (Zpos m)) as d eqn:Hd.
  remember (Z.max 0 (Z.max (d + e - 53) (-1074) - e)) as n1 eqn:Hn1.
  remember (Zdigits2 m1) as d1 eqn:Hd1.
  remember (Z.max 0 (Z.max (d1 + e' - 53) (-1074) - e')) as n2 eqn:Hn2.
  remember (Zdigits2 (Zpos m'')) as d2 eqn:Hd2.
  remember (shr_m mrs') as m' eqn:Hm'.
  assert (P2 : 0 < 2 ^ n2) by (apply Z.pow_pos_nonneg; lia).
  destruct (Z_lt_le_dec n1 d) as [N|N].
  - destruct (Zdigits2_div (Zpos m) n1 ltac:(lia) ltac:(lia)) as [Q1 Q2].
    rewrite <- Hd, <- M' in Q2. rewrite <- M' in Q1.
    assert (K : d1 = d - n1 \/ (d1 = d - n1 + 1 /\ m1 = 2 ^ (d - n1))).
    { destruct C1 as [C1|C1].
      - left. rewrite Hd1, C1. exact Q2.
      - destruct (Zdigits2_succ m' Q1) as [G|[G G']].
        + left. rewrite Hd1, C1, G. exact Q2.
        + right. rewrite Hd1, C1, G, G', Q2. split; [lia | reflexivity]. }
    destruct K as [K|[K K']].
    + assert (n2 = 0) as Z2 by lia. rewrite Z2, Z.div_1_r in M''.
      rewrite Hd2, M'', <- Hd1. lia.
    + destruct (Z_le_gt_dec (-1074) (d + e - 53)) as [T|T].
      * assert (n2 = 1) as Z2 by lia.
        assert (V : Zpos m'' = 2 ^ (d - n1 - 1)).
        { rewrite M'', K', Z2. change (2 ^ 1) with 2.
          replace (d - n1) with (Z.succ (d - n1 - 1)) at 1 by lia.
          rewrite Z.pow_succ_r by lia. rewrite Z.mul_comm, Z.div_mul by lia.
          reflexivity. }
        assert (W : d2 = d - n1).
        { rewrite Hd2. apply Zdigits2_unique; [lia|]. rewrite V. split; [lia|].
          apply Z.pow_lt_mono_r; lia. }
        lia.
      * assert (n2 = 0) as Z2 by lia. rewrite Z2, Z.div_1_r in M''.
        rewrite Hd2, M'', <- Hd1. lia.
  - pose proof (Zdigits2_div_zero (Zpos m) n1 ltac:(lia) ltac:(lia)) as Z0.
    rewrite <- M' in Z0.
    destruct C1 as [C1|C1].
    + exfalso. rewrite C1, Z0 in M''. rewrite Z.div_0_l in M'' by lia. lia.
    + assert (O : m1 = 1) by lia. rewrite O in Hd1, M''.
      change (Zdigits2 1) with 1 in Hd1.
      assert (Z2 : n2 = 0) by lia. rewrite Z2, Z.div_1_r in M''.
      rewrite Hd2, M''. change (Zdigits2 1) with 1. lia.
Qed.

(** A product by 100 is always a valid number. *)
Lemma js_mul_100_valid (x : number) :
  valid_binary prec emax (js_mul x (lit 100)) = true.
Proof.
  unfold js_mul. rewrite lit_100. destruct x as [s|s| |s m e]; try reflexivity.
  unfold SFmul. apply binary_round_aux_valid.
  pose proof (digits2_pos_bounds (m * M100)) as B.
  destruct (Z_le_gt_dec 53 (Zpos (digits2_pos (m * M100)))) as [L|G]; [exact L|].
  exfalso.
  assert (2 ^ Zpos (digits2_pos (m * M100)) <= 2 ^ 52) by (apply Z.pow_le_mono_r; lia).
  assert (Zpos M100 <= Zpos (m * M100)) by (rewrite Pos2Z.inj_mul; nia).
  change (Zpos M100) with 7036874417766400 in *. change (2 ^ 52) with 4503599627370496 in *.
  lia.
Qed.

(** On a valid number, capping at 100 and rounding commute. *)
Lemma Math_round_min_100 (x : number) :
  valid_binary prec emax x = true ->
  Math_round (Math_min (lit 100) x) = Math_min (lit 100) (Math_round x).
Proof.
  intros V. destruct x as [s|s| |s m e].
  - destruct s; vm_compute; reflexivity.
  - destruct s; vm_compute; reflexivity.
  - vm_compute; reflexivity.
  - destruct s.
    + rewrite (Math_min_100_not_positive (S754_finite true m e)) by reflexivity.
      symmetry. apply Math_min_100_not_positive.
      unfold Math_round. destruct (0 <=? e) eqn:E; [reflexivity|].
      apply Z.leb_gt in E. apply binary_normalize_not_positive.
      replace (1 - e) with (- e + 1) by lia. simpl cond_Zopp.
      apply round_integer_negative. lia.
    + destruct (Z.leb_spec 0 e) as [E|E].
      * rewrite Math_min_100_finite.
        assert (C : (-46 ?= e) = Lt) by (apply Z.compare_lt_iff; lia).
        rewrite C, Math_round_100.
        unfold Math_round. destruct (Z.leb_spec 0 e); [|lia].
        now rewrite Math_min_100_finite, C.
      * destruct (valid_finite _ _ _ V) as [U L].
        pose proof (half_up_bounds (Zpos m) (- e) ltac:(lia) ltac:(lia)) as B.
        rewrite (Math_round_positive m e E), Math_min_100_lit by lia.
        rewrite Math_min_100_finite.
        destruct (Z.compare_spec (-46) e) as [C|C|C].
        -- subst e. change (- -46) with 46 in *.
           assert (M : 2 ^ 52 <= Zpos m) by (apply L; lia).
           rewrite Pos2Z.inj_compare. change (Zpos M100) with (100 * 2 ^ 46).
           unfold half_up in *. change (2 ^ (46 + 1)) with (2 ^ 47) in *.
           destruct (Z.compare_spec (100 * 2 ^ 46) (Zpos m)) as [K|K|K].
           ++ assert (m = M100) as -> by (apply Pos2Z.inj; now rewrite <- K).
              vm_compute. reflexivity.
           ++ rewrite Math_round_100.
              destruct (Z.leb_spec ((Zpos m * 2 + 2 ^ 46) / 2 ^ 47) 100) as [J|J];
                [|reflexivity].
              assert (100 <= (Zpos m * 2 + 2 ^ 46) / 2 ^ 47)
                by (apply Z.div_le_lower_bound; lia).
              now replace ((Zpos m * 2 + 2 ^ 46) / 2 ^ 47) with 100 by lia.
           ++ rewrite (Math_round_positive m (-46)) by lia.
              unfold half_up. change (- -46) with 46. change (2 ^ (46 + 1)) with (2 ^ 47).
              destruct (Z.leb_spec ((Zpos m * 2 + 2 ^ 46) / 2 ^ 47) 100) as [J|J];
                [reflexivity|].
              exfalso.
              assert ((Zpos m * 2 + 2 ^ 46) / 2 ^ 47 < 101)
                by (apply Z.div_lt_upper_bound; lia).
              lia.
        -- rewrite Math_round_100.
           pose proof (half_up_large (Zpos m) (- e) ltac:(apply L; lia) ltac:(lia)).
           destruct (Z.leb_spec (half_up (Zpos m) (- e)) 100); [lia | reflexivity].
        -- rewrite (Math_round_positive m e E).
           pose proof (half_up_small (Zpos m) (- e) ltac:(lia) ltac:(lia)).
           destruct (Z.leb_spec (half_up (Zpos m) (- e)) 100); [reflexivity | lia].
Qed.

(** ** C8: the weekly load of an editor *)

(** C8, as stated, fails on one 23-hour job against a capacity of 40:
    the quotient 23/40 is rounded before it is multiplied by 100, the
    product falls just below 57.5 and [getEditorCapacity] returns 57,
    whereas the stated formula gives 58, on binary64 numbers and on
    exact rationals alike. *)
Lemma getEditorCapacity_23_of_40 :
  week_hours planner_23_of_40 "e1" = [lit 23] /\
  getEditorCapacity planner_23_of_40 "e1" = lit 57 /\
  claimed_capacity planner_23_of_40 "e1" = lit 58 /\
  claimed_capacity_exact (map exact (week_hours planner_23_of_40 "e1"))
                         (exact (lit 40)) = 58 /\
  getEditorCapacity planner_23_of_40 "e1" <> claimed_capacity planner_23_of_40 "e1".
Proof.
  split; [reflexivity|]. split; [vm_compute; reflexivity|].
  split; [vm_compute; reflexivity|]. split; [vm_compute; reflexivity|].
  vm_compute. discriminate.
Qed.

Lemma fold_left_map_hours (l : list Job.t) (a : number) :
  fold_left (fun sum job => js_add sum (Job.estimatedHours job)) l a
  = fold_left js_add (map Job.estimatedHours l) a.
Proof.
  revert a. induction l as [|j l IH]; simpl; intros a; [reflexivity | apply IH].
Qed.

(** C8, amended.  [getEditorCapacity] returns
    [round(min(100, (sum / capacity) * 100))] computed on binary64
    numbers: [sum] adds the estimated hours of the editor's jobs of the
    selected week from the left, starting at 0, the quotient is rounded
    before the multiplication, and [capacity] is the editor's weekly
    capacity, or 40 when the editor is absent or its capacity is a zero
    or [NaN].  For a capacity of 40 and two jobs of 10 and 15 hours in
    the selected week the result is 63. *)
Theorem getEditorCapacity_formula :
  (forall st editorId,
      getEditorCapacity st editorId =
      Math_round
        (Math_min (lit 100)
           (js_mul (js_div (js_sum (week_hours st editorId))
                           (capacity_or_40 st editorId))
                   (lit 100)))) /\
  getEditorCapacity planner_25_of_40 "e1" = lit 63.
Proof.
  split; [|vm_compute; reflexivity].
  intros st editorId.
  rewrite Math_round_min_100 by apply js_mul_100_valid.
  unfold getEditorCapacity, week_hours, js_sum, capacity_or_40.
  rewrite fold_left_map_hours.
  destruct (find (fun e => Editor.id e === editorId) (editors st)) as [e|];
    [|reflexivity].
  now destruct (Editor.weeklyCapacity e).
Qed.

(** * Further properties of the hook *)

(** ** More on [moveJob] *)

Lemma exactly_0_to_Permutation (n : nat) (l l' : list Z) :
  Permutation l l' -> exactly_0_to n l -> exactly_0_to n l'.
Proof.
  intros P (Hlen & Hnd & Hin). split; [|split].
  - now rewrite <- (Permutation_length P).
  - exact (Permutation_NoDup P Hnd).
  - intros k. rewrite <- Hin. split; apply Permutation_in; [now symmetry | exact P].
Qed.

Lemma make_room_exactly (n : nat) (newOrder : Z) (l : list Z) :
  0 <= newOrder <= Z.of_nat n ->
  exactly_0_to n l -> exactly_0_to (S n) (newOrder :: map (make_room newOrder) l).
Proof.
  intros Ho (Hlen & Hnd & Hin). split; [|split].
  - simpl. now rewrite length_map, Hlen.
  - constructor.
    + intros H. apply in_map_iff in H. destruct H as (a & E & _).
      unfold make_room in E. destruct (Z.leb_spec newOrder a); lia.
    + apply NoDup_map_NoDup_ForallPairs; [|exact Hnd].
      intros a b _ _. unfold make_room.
      destruct (Z.leb_spec newOrder a), (Z.leb_spec newOrder b); lia.
  - intros k. simpl. rewrite in_map_iff. split.
    + intros [<-|(a & <- & Ha)]; [lia|]. apply Hin in Ha. unfold make_room.
      destruct (Z.leb_spec newOrder a); lia.
    + intros Hk. destruct (Z.eq_dec k newOrder) as [->|N]; [now left|]. right.
      destruct (Z_lt_le_dec k newOrder) as [L|L].
      * exists k. split; [|apply Hin; lia]. unfold make_room.
        destruct (Z.leb_spec newOrder k); lia.
      * exists (k - 1). split; [|apply Hin; lia]. unfold make_room.
        destruct (Z.leb_spec newOrder (k - 1)); lia.
Qed.

Lemma in_cell_ext (c : Cell) (x y : Job.t) :
  cell x = cell y -> in_cell c x = in_cell c y.
Proof.
  destruct c as [[e d] w]. unfold cell, in_cell. intros E. inversion E as [[E1 E2 E3]].
  now rewrite E1, E2, E3.
Qed.

(** A job other than the moved one stays in its cell. *)
Lemma moveJob_map_other_cell job jobId e d o same (y : Job.t) :
  Job.id y <> jobId -> cell (moveJob_map job jobId e d o same y) = cell y.
Proof.
  intros N. unfold moveJob_map.
  destruct (String.eqb_spec (Job.id y) jobId); [contradiction|].
  repeat match goal with
         | |- context [if ?b then _ else _] => destruct b
         end; reflexivity.
Qed.

(** Every job carrying the identifier lands in the destination cell. *)
Lemma moveJob_map_moved job jobId e d o same (y : Job.t) :
  Job.id y = jobId ->
  moveJob_map job jobId e d o same y =
  Job.mk (Job.id y) (Job.title y) (Job.clientName y) e d (Job.weekStart y)
         (Job.estimatedHours y) (Job.priority y) (Job.status y) o.
Proof.
  intros E. unfold moveJob_map. apply String.eqb_eq in E. now rewrite E.
Qed.

Lemma moveJob_map_cross_order job jobId e d o (y : Job.t) :
  Job.id y <> jobId -> in_cell (e, d, Job.weekStart job) y = true ->
  Job.order (moveJob_map job jobId e d o false y) = make_room o (Job.order y).
Proof.
  intros N Hc. unfold moveJob_map, make_room.
  destruct (String.eqb_spec (Job.id y) jobId); [contradiction|].
  apply in_cell_true, cell_eq in Hc. destruct Hc as (E1 & E2 & E3).
  rewrite E1, E2, E3, !String.eqb_refl, Z.eqb_refl. simpl.
  decide_tests; lia.
Qed.

(** In a cross-cell move the destination cell receives the moved job
    and its former jobs make room. *)
Lemma cross_cell_destination (job : Job.t) (jobId e : string) (d o : Z)
    (l : list Job.t) :
  NoDup (map Job.id l) -> In job l -> Job.id job = jobId ->
  in_cell (e, d, Job.weekStart job) job = false ->
  Permutation
    (cell_orders (e, d, Job.weekStart job) (map (moveJob_map job jobId e d o false) l))
    (o :: map (make_room o) (cell_orders (e, d, Job.weekStart job) l)).
Proof.
  intros Hnd Hin Hid Hout. unfold cell_orders.
  induction l as [|x l IH]; [contradiction|].
  simpl in Hnd. inversion Hnd as [|? ? Hx Hnd']; subst.
  assert (Others : forall y, In y l -> Job.id y <> Job.id x).
  { intros y Hy E. apply Hx. rewrite <- E. now apply in_map. }
  destruct Hin as [->|Hin].
  - cbn [map filter]. rewrite Hout.
    rewrite (moveJob_map_moved job (Job.id job) e d o false job eq_refl).
    unfold in_cell at 1. cbn [Job.editorId Job.scheduledDate Job.weekStart].
    rewrite !String.eqb_refl, Z.eqb_refl. cbn [andb map Job.order].
    apply perm_skip. apply Permutation_refl'.
    apply (map_filter_map _ _ Job.order (make_room o)).
    + intros y Hy. apply in_cell_ext, moveJob_map_other_cell. now apply Others.
    + intros y Hy Hc. apply moveJob_map_cross_order; [now apply Others | exact Hc].
  - specialize (IH Hnd' Hin).
    assert (N : Job.id x <> Job.id job) by (intros E; exact (Others job Hin (eq_sym E))).
    cbn [map filter].
    rewrite (in_cell_ext _ _ _ (moveJob_map_other_cell job (Job.id job) e d o false x N)).
    destruct (in_cell (e, d, Job.weekStart job) x) eqn:Hc.
    + cbn [map]. rewrite (moveJob_map_cross_order job (Job.id job) e d o x N Hc).
      etransitivity; [apply perm_skip, IH | apply perm_swap].
    + exact IH.
Qed.

(** X1. In a collection with pairwise distinct identifiers, let the
    destination cell of a cross-cell move hold [n] jobs whose orders are
    exactly 0, ..., n-1.  After a move with [newOrder] between 0 and n
    the destination cell holds n+1 jobs whose orders are exactly
    0, ..., n. *)
Theorem moveJob_cross_cell_destination_contiguous :
  forall prev jobId newEditorId newDayIndex newOrder job n,
    unique_ids prev ->
    movedJob prev jobId = Some job ->
    Job.editorId job <> newEditorId \/ Job.scheduledDate job <> newDayIndex ->
    exactly_0_to n (cell_orders (newEditorId, newDayIndex, Job.weekStart job) prev) ->
    0 <= newOrder <= Z.of_nat n ->
    exists out,
      moveJob prev jobId newEditorId newDayIndex newOrder = Normal out /\
      exactly_0_to (S n)
        (cell_orders (newEditorId, newDayIndex, Job.weekStart job) out).
Proof.
  intros prev jobId e d o job n Hids Hjob Hcross Hcell Ho.
  destruct (movedJob_Some _ _ _ Hjob) as [Hin Hid].
  eexists. split; [exact (moveJob_found _ _ _ _ _ _ Hjob)|].
  assert (W : (Job.editorId job === e) && (Job.scheduledDate job =? d) = false).
  { apply andb_false_iff.
    destruct Hcross; [left; now apply String.eqb_neq | right; now apply Z.eqb_neq]. }
  rewrite W.
  assert (Hout : in_cell (e, d, Job.weekStart job) job = false).
  { unfold in_cell. now rewrite W. }
  eapply exactly_0_to_Permutation.
  - symmetry. now apply cross_cell_destination.
  - now apply make_room_exactly.
Qed.

Lemma moveJob_cross_cell_destination_contiguous_witness :
  let prev := four_job_cell ++ [job_at "x" "e2" 4 "2024-01-01" 0;
                                job_at "y" "e2" 4 "2024-01-01" 1] in
  exists out,
    moveJob prev "b" "e2" 4 1 = Normal out /\
    exactly_0_to 3 (cell_orders ("e2", 4, "2024-01-01") out).
Proof.
  assert (U : unique_ids (four_job_cell ++ [job_at "x" "e2" 4 "2024-01-01" 0;
                                            job_at "y" "e2" 4 "2024-01-01" 1])).
  { unfold unique_ids. simpl. repeat constructor; simpl; intuition discriminate. }
  assert (C : Job.editorId (job_at "b" "e1" 2 "2024-01-01" 1) <> "e2"
              \/ Job.scheduledDate (job_at "b" "e1" 2 "2024-01-01" 1) <> 4).
  { right. simpl. lia. }
  assert (E : exactly_0_to 2
                (cell_orders ("e2", 4, "2024-01-01")
                   (four_job_cell ++ [job_at "x" "e2" 4 "2024-01-01" 0;
                                      job_at "y" "e2" 4 "2024-01-01" 1]))).
  { split; [reflexivity|]. split; [|intros k; split].
    - simpl. repeat constructor; simpl; intuition lia.
    - simpl. lia.
    - simpl. lia. }
  assert (B : 0 <= 1 <= Z.of_nat 2) by (simpl; lia).
  exact (moveJob_cross_cell_destination_contiguous _ "b" "e2" 4 1
           (job_at "b" "e1" 2 "2024-01-01" 1) 2 U eq_refl C E B).
Defined.

(** A job other than the moved one and outside the destination cell is
    returned as it is. *)
Lemma moveJob_map_outside job jobId e d o same (y : Job.t) :
  Job.id y <> jobId -> in_cell (e, d, Job.weekStart job) y = false ->
  moveJob_map job jobId e d o same y = y.
Proof.
  intros N Hc. unfold moveJob_map.
  destruct (String.eqb_spec (Job.id y) jobId); [contradiction|].
  unfold in_cell in Hc. rewrite Hc. reflexivity.
Qed.

(** Inside the cell of an in-cell move, the callback shifts by [reindex]. *)
Lemma moveJob_map_inside job jobId e d o (y : Job.t) :
  Job.id y <> jobId -> in_cell (e, d, Job.weekStart job) y = true ->
  Job.order y <> Job.order job ->
  moveJob_map job jobId e d o true y =
  with_order y (reindex (Job.order job) o (Job.order y)).
Proof.
  intros N Hc Ho. unfold moveJob_map, reindex.
  destruct (String.eqb_spec (Job.id y) jobId); [contradiction|].
  unfold in_cell in Hc. rewrite Hc. simpl.
  pose proof (with_order_same y) as S.
  decide_tests; try reflexivity; try (exfalso; lia); now rewrite S.
Qed.

Lemma reindex_cases (oldOrder newOrder o : Z) :
  (o = oldOrder /\ reindex oldOrder newOrder o = newOrder) \/
  (o <> oldOrder /\ oldOrder < o <= newOrder /\ reindex oldOrder newOrder o = o - 1) \/
  (o <> oldOrder /\ newOrder <= o < oldOrder /\ reindex oldOrder newOrder o = o + 1) \/
  (o <> oldOrder /\ ~ oldOrder < o <= newOrder /\ ~ newOrder <= o < oldOrder /\
   reindex oldOrder newOrder o = o).
Proof. unfold reindex. decide_tests; lia. Qed.

Lemma reindex_back (oldOrder newOrder o : Z) :
  o <> oldOrder ->
  reindex oldOrder newOrder o <> newOrder /\
  reindex newOrder oldOrder (reindex oldOrder newOrder o) = o.
Proof.
  intros N. pose proof (reindex_cases oldOrder newOrder o) as A.
  pose proof (reindex_cases newOrder oldOrder (reindex oldOrder newOrder o)) as B.
  lia.
Qed.

Lemma with_order_twice (y : Job.t) (a b : Z) :
  with_order (with_order y a) b = with_order y b.
Proof. reflexivity. Qed.

Lemma movedJob_map (g : Job.t -> Job.t) (l : list Job.t) (jobId : string) :
  (forall x, Job.id (g x) = Job.id x) ->
  movedJob (map g l) jobId = option_map g (movedJob l jobId).
Proof.
  intros H. unfold movedJob. induction l as [|x l IH]; simpl; [reflexivity|].
  rewrite H. destruct (Job.id x === jobId); [reflexivity | exact IH].
Qed.

Lemma moveJob_map_id job jobId e d o same (y : Job.t) :
  Job.id (moveJob_map job jobId e d o same y) = Job.id y.
Proof.
  unfold moveJob_map.
  repeat match goal with
         | |- context [if ?b then _ else _] => destruct b
         end; reflexivity.
Qed.

(** The source cell of a cross-cell move keeps its other jobs with their
    orders. *)
Lemma cross_cell_source (job : Job.t) (jobId e : string) (d o : Z)
    (l : list Job.t) :
  in_cell (e, d, Job.weekStart job) job = false ->
  cell_orders (cell job) (map (moveJob_map job jobId e d o false) l) =
  map Job.order
      (filter (fun x => in_cell (cell job) x && negb (Job.id x === jobId)) l).
Proof.
  intros Hout. unfold cell_orders.
  induction l as [|x l IH]; [reflexivity|]. cbn [map filter].
  destruct (String.eqb_spec (Job.id x) jobId) as [E|N].
  - rewrite (moveJob_map_moved job jobId e d o false x E), andb_false_r.
    assert (F : in_cell (cell job)
                  (Job.mk (Job.id x) (Job.title x) (Job.clientName x) e d
                          (Job.weekStart x) (Job.estimatedHours x) (Job.priority x)
                          (Job.status x) o) = false).
    { unfold in_cell, cell in *. cbn [Job.editorId Job.scheduledDate Job.weekStart].
      rewrite (String.eqb_sym e), (Z.eqb_sym d).
      destruct (Job.editorId job === e), (Job.scheduledDate job =? d);
        try reflexivity; try now rewrite andb_false_r.
      rewrite String.eqb_refl in Hout. discriminate. }
    rewrite F. exact IH.
  - rewrite (in_cell_ext _ _ _ (moveJob_map_other_cell job jobId e d o false x N)).
    rewrite andb_true_r.
    destruct (in_cell (cell job) x) eqn:Hc; [|exact IH].
    cbn [map]. rewrite IH. f_equal.
    rewrite moveJob_map_outside; [reflexivity | exact N |].
    apply in_cell_true in Hc.
    destruct (in_cell (e, d, Job.weekStart job) x) eqn:Hd; [|reflexivity].
    apply in_cell_true in Hd. rewrite Hc in Hd.
    apply in_cell_true in Hd. congruence.
Qed.

(** X2. In a collection with pairwise distinct identifiers, let the
    cell of the moved job hold jobs whose orders are exactly
    0, ..., n-1, the moved job not being the last one.  After a move to
    another cell the source cell is not renumbered: the order n-1 is
    still there and the order of the moved job is missing, so its orders
    are not 0, ..., m-1 for any m. *)
Theorem moveJob_cross_cell_source_gap :
  forall prev jobId newEditorId newDayIndex newOrder job n,
    unique_ids prev ->
    movedJob prev jobId = Some job ->
    Job.editorId job <> newEditorId \/ Job.scheduledDate job <> newDayIndex ->
    exactly_0_to n (cell_orders (cell job) prev) ->
    Job.order job < Z.of_nat n - 1 ->
    exists out,
      moveJob prev jobId newEditorId newDayIndex newOrder = Normal out /\
      In (Z.of_nat n - 1) (cell_orders (cell job) out) /\
      ~ In (Job.order job) (cell_orders (cell job) out) /\
      forall m, ~ exactly_0_to m (cell_orders (cell job) out).
Proof.
  intros prev jobId e d o job n Hids Hjob Hcross (Hlen & Hnd & Hrange) Hlast.
  destruct (movedJob_Some _ _ _ Hjob) as [Hin Hid].
  eexists. split; [exact (moveJob_found _ _ _ _ _ _ Hjob)|].
  assert (W : (Job.editorId job === e) && (Job.scheduledDate job =? d) = false).
  { apply andb_false_iff.
    destruct Hcross; [left; now apply String.eqb_neq | right; now apply Z.eqb_neq]. }
  rewrite W.
  assert (Hout : in_cell (e, d, Job.weekStart job) job = false).
  { unfold in_cell. now rewrite W. }
  rewrite (cross_cell_source job jobId e d o prev Hout).
  assert (Hjc : In job (filter (in_cell (cell job)) prev)).
  { apply filter_In. split; [exact Hin|]. now apply in_cell_true. }
  assert (Hold : 0 <= Job.order job < Z.of_nat n).
  { apply Hrange. unfold cell_orders. now apply in_map. }
  assert (A : In (Z.of_nat n - 1)
                (map Job.order
                   (filter (fun x => in_cell (cell job) x && negb (Job.id x === jobId))
                           prev))).
  { assert (H : In (Z.of_nat n - 1) (cell_orders (cell job) prev))
      by (apply Hrange; lia).
    unfold cell_orders in H. apply in_map_iff in H. destruct H as (x & Ex & Hx).
    apply in_map_iff. exists x. split; [exact Ex|].
    apply filter_In in Hx. destruct Hx as [Hx Hc]. apply filter_In. split; [exact Hx|].
    rewrite Hc. simpl. apply negb_true_iff, String.eqb_neq. intros E.
    assert (x = job) by (apply (NoDup_map_injective Job.id prev Hids); congruence).
    subst x. lia. }
  assert (B : ~ In (Job.order job)
                (map Job.order
                   (filter (fun x => in_cell (cell job) x && negb (Job.id x === jobId))
                           prev))).
  { intros H. apply in_map_iff in H. destruct H as (x & Ex & Hx).
    apply filter_In in Hx. destruct Hx as [Hx Hc].
    apply andb_true_iff in Hc. destruct Hc as [Hc Hn].
    apply negb_true_iff, String.eqb_neq in Hn. apply Hn. rewrite <- Hid. f_equal.
    apply (NoDup_map_injective Job.order _ Hnd); auto.
    apply filter_In. now split. }
  split; [exact A|]. split; [exact B|].
  intros m (_ & _ & Hm). apply B. apply Hm. apply Hm in A. lia.
Qed.

Lemma moveJob_cross_cell_source_gap_witness :
  exists out,
    moveJob four_job_cell "b" "e2" 4 0 = Normal out /\
    In (Z.of_nat 4 - 1) (cell_orders ("e1", 2, "2024-01-01") out) /\
    ~ In 1 (cell_orders ("e1", 2, "2024-01-01") out) /\
    forall m, ~ exactly_0_to m (cell_orders ("e1", 2, "2024-01-01") out).
Proof.
  assert (C : Job.editorId (job_at "b" "e1" 2 "2024-01-01" 1) <> "e2"
              \/ Job.scheduledDate (job_at "b" "e1" 2 "2024-01-01" 1) <> 4).
  { right. simpl. lia. }
  assert (L : Job.order (job_at "b" "e1" 2 "2024-01-01" 1) < Z.of_nat 4 - 1)
    by (simpl; lia).
  exact (moveJob_cross_cell_source_gap four_job_cell "b" "e2" 4 0
           (job_at "b" "e1" 2 "2024-01-01" 1) 4
           four_job_cell_ids eq_refl C four_job_cell_orders L).
Defined.

(** X3. In a collection with pairwise distinct identifiers in which no
    two jobs of the moved job's cell share an order, a reordering inside
    the cell is undone by moving the job back to its former order. *)
Theorem moveJob_same_cell_round_trip :
  forall prev jobId newOrder job,
    unique_ids prev ->
    movedJob prev jobId = Some job ->
    NoDup (cell_orders (cell job) prev) ->
    exists out,
      moveJob prev jobId (Job.editorId job) (Job.scheduledDate job) newOrder
      = Normal out /\
      moveJob out jobId (Job.editorId job) (Job.scheduledDate job) (Job.order job)
      = Normal prev.
Proof.
  intros prev jobId o job Hids Hjob Hnd.
  destruct (movedJob_Some _ _ _ Hjob) as [Hin Hid].
  eexists. split; [exact (moveJob_found _ _ _ _ _ _ Hjob)|].
  rewrite String.eqb_refl, Z.eqb_refl. cbn [andb].
  set (g1 := moveJob_map job jobId (Job.editorId job) (Job.scheduledDate job) o true).
  assert (Hjob' : movedJob (map g1 prev) jobId = Some (g1 job)).
  { rewrite movedJob_map, Hjob; [reflexivity|]. intros x. apply moveJob_map_id. }
  rewrite (moveJob_found _ _ _ _ _ _ Hjob').
  assert (G1 : g1 job = Job.mk (Job.id job) (Job.title job) (Job.clientName job)
                          (Job.editorId job) (Job.scheduledDate job)
                          (Job.weekStart job) (Job.estimatedHours job)
                          (Job.priority job) (Job.status job) o).
  { unfold g1. now apply moveJob_map_moved. }
  rewrite G1. cbn [Job.editorId Job.scheduledDate].
  rewrite String.eqb_refl, Z.eqb_refl. cbn [andb].
  rewrite <- G1. f_equal. rewrite map_map.
  rewrite <- (map_id prev) at 2. apply map_ext_in. intros x Hx.
  destruct (String.eqb_spec (Job.id x) jobId) as [E|N].
  - assert (x = job) as ->
      by (apply (NoDup_map_injective Job.id prev Hids); congruence).
    rewrite G1 at 2. rewrite moveJob_map_moved by exact Hid.
    cbn [Job.id Job.title Job.clientName Job.weekStart Job.estimatedHours
         Job.priority Job.status].
    destruct job; reflexivity.
  - assert (W : Job.weekStart (g1 job) = Job.weekStart job) by (rewrite G1; reflexivity).
    assert (O : Job.order (g1 job) = o) by (rewrite G1; reflexivity).
    unfold cell in Hnd.
    destruct (in_cell (Job.editorId job, Job.scheduledDate job, Job.weekStart job) x)
      eqn:Hc.
    + assert (Hne : Job.order x <> Job.order job).
      { intros Eo. apply N. rewrite <- Hid. f_equal.
        apply (NoDup_map_injective Job.order _ Hnd).
        - apply filter_In. now split.
        - apply filter_In. split; [exact Hin|]. now apply in_cell_true.
        - exact Eo. }
      assert (Gx : g1 x = with_order x (reindex (Job.order job) o (Job.order x)))
        by (unfold g1; apply moveJob_map_inside; assumption).
      rewrite Gx. rewrite moveJob_map_inside.
      * rewrite with_order_twice. cbn [Job.order with_order]. rewrite O.
        rewrite <- (with_order_same x) at 3. f_equal.
        now apply reindex_back.
      * exact N.
      * rewrite W. rewrite <- Hc. apply in_cell_ext. reflexivity.
      * cbn [Job.order with_order]. rewrite O. now apply reindex_back.
    + assert (Gx : g1 x = x) by (unfold g1; apply moveJob_map_outside; assumption).
      rewrite Gx. apply moveJob_map_outside; [exact N|]. now rewrite W.
Qed.

Lemma moveJob_same_cell_round_trip_witness :
  exists out,
    moveJob four_job_cell "b" "e1" 2 3 = Normal out /\
    moveJob out "b" "e1" 2 1 = Normal four_job_cell.
Proof.
  assert (N : NoDup (cell_orders (cell (job_at "b" "e1" 2 "2024-01-01" 1))
                                 four_job_cell)).
  { simpl. repeat constructor; simpl; intuition lia. }
  exact (moveJob_same_cell_round_trip four_job_cell "b" 3
           (job_at "b" "e1" 2 "2024-01-01" 1) four_job_cell_ids eq_refl N).
Defined.

(** ** More on [getEditorCapacity] *)

Lemma getEditorCapacity_load (st : Planner) (editorId : string) :
  getEditorCapacity st editorId =
  load (week_hours st editorId) (capacity_or_40 st editorId).
Proof.
  unfold getEditorCapacity, load, week_hours, js_sum, capacity_or_40.
  rewrite fold_left_map_hours.
  destruct (find (fun e => Editor.id e === editorId) (editors st)) as [e|];
    [|reflexivity].
  now destruct (Editor.weeklyCapacity e).
Qed.

Lemma moveJob_map_hours job jobId e d o same (y : Job.t) :
  Job.estimatedHours (moveJob_map job jobId e d o same y) = Job.estimatedHours y.
Proof.
  unfold moveJob_map.
  repeat match goal with
         | |- context [if ?b then _ else _] => destruct b
         end; reflexivity.
Qed.

Lemma map_filter_same {A B : Type} (p : A -> bool) (g : A -> A) (h : A -> B)
    (l : list A) :
  (forall x, In x l -> p (g x) = p x) ->
  (forall x, In x l -> h (g x) = h x) ->
  map h (filter p (map g l)) = map h (filter p l).
Proof.
  intros Hp Hh. rewrite (map_filter_map p g h (fun b => b)).
  - apply map_id.
  - exact Hp.
  - intros x Hx _. now apply Hh.
Qed.

(** X4. In a collection with pairwise distinct identifiers, a move
    leaves the load of an editor as it was whenever the destination
    editor is the moved job's own editor, and otherwise for every editor
    other than the source and the destination editor. *)
Theorem moveJob_keeps_capacity :
  forall st jobId newEditorId newDayIndex newOrder job out editorId,
    unique_ids (jobs st) ->
    movedJob (jobs st) jobId = Some job ->
    moveJob (jobs st) jobId newEditorId newDayIndex newOrder = Normal out ->
    newEditorId = Job.editorId job \/
    (editorId <> Job.editorId job /\ editorId <> newEditorId) ->
    getEditorCapacity (after_move st out) editorId = getEditorCapacity st editorId.
Proof.
  intros st jobId e d o job out editorId Hids Hjob Hout Hed.
  destruct (movedJob_Some _ _ _ Hjob) as [Hin Hid].
  rewrite (moveJob_found _ _ _ _ _ _ Hjob) in Hout. inversion Hout as [Eout].
  rewrite !getEditorCapacity_load. f_equal.
  unfold week_hours, after_move. cbn [jobs setJobs currentWeekStartStr].
  apply map_filter_same; [|intros x _; apply moveJob_map_hours].
  intros x Hx.
  destruct (String.eqb_spec (Job.id x) jobId) as [E|N].
  - assert (x = job) as ->
      by (apply (NoDup_map_injective Job.id (jobs st) Hids); congruence).
    rewrite moveJob_map_moved by exact Hid. cbn [Job.editorId Job.weekStart].
    f_equal. destruct Hed as [->|[N1 N2]]; [reflexivity|].
    apply not_eq_sym, String.eqb_neq in N1. apply not_eq_sym, String.eqb_neq in N2.
    now rewrite N1, N2.
  - pose proof (moveJob_map_other_cell job jobId e d o
                  ((Job.editorId job === e) && (Job.scheduledDate job =? d)) x N) as C.
    unfold cell in C. inversion C as [[C1 C2 C3]]. now rewrite C1, C3.
Qed.

Lemma moveJob_keeps_capacity_witness :
  let st := mkPlanner (Some (User.mk "u1")) false [alice] four_job_cell "2024-01-01" in
  exists out,
    moveJob four_job_cell "b" "e1" 5 0 = Normal out /\
    getEditorCapacity (after_move st out) "e1" = getEditorCapacity st "e1".
Proof.
  eexists. split; [reflexivity|].
  exact (moveJob_keeps_capacity
           (mkPlanner (Some (User.mk "u1")) false [alice] four_job_cell "2024-01-01")
           "b" "e1" 5 0 (job_at "b" "e1" 2 "2024-01-01" 1) _ "e1"
           four_job_cell_ids eq_refl eq_refl (or_introl eq_refl)).
Defined.

Lemma SFcompare_antisym (x y : number) :
  SFcompare y x = option_map CompOpp (SFcompare x y).
Proof.
  destruct x as [s|s| |s m e], y as [s'|s'| |s' m' e']; simpl;
    try reflexivity; try (destruct s; reflexivity); try (destruct s'; reflexivity);
    try (destruct s, s'; reflexivity).
  destruct s, s'; try reflexivity.
  - rewrite (Z.compare_antisym e e').
    destruct (e ?= e'); simpl; try reflexivity.
    rewrite Pos.compare_cont_antisym. simpl. now rewrite CompOpp_involutive.
  - rewrite (Z.compare_antisym e e').
    destruct (e ?= e'); simpl; try reflexivity.
    now rewrite Pos.compare_cont_antisym.
Qed.

Lemma Math_min_100_cases (y : number) :
  Math_min (lit 100) y =
  match SFcompare (lit 100) y with
  | None => NaN
  | Some Lt => lit 100
  | Some _ => y
  end.
Proof.
  rewrite lit_100. unfold Math_min.
  destruct (SFcompare (S754_finite false M100 (-46)) y) as [[| |]|]; reflexivity.
Qed.

Lemma Math_min_100_bound (y : number) :
  Math_min (lit 100) y = NaN \/ SFleb (Math_min (lit 100) y) (lit 100) = true.
Proof.
  rewrite Math_min_100_cases. unfold SFleb.
  pose proof (SFcompare_antisym (lit 100) y) as A.
  destruct (SFcompare (lit 100) y) as [[| |]|] eqn:C; cbn [option_map CompOpp] in A.
  - right. now rewrite A.
  - right. vm_compute. reflexivity.
  - right. now rewrite A.
  - now left.
Qed.

(** X5. The load of an editor is never above 100: it is [NaN] or
    compares less than or equal to 100, whatever the hours and the
    capacity are. *)
Theorem getEditorCapacity_at_most_100 :
  forall st editorId,
    getEditorCapacity st editorId = NaN \/
    SFleb (getEditorCapacity st editorId) (lit 100) = true.
Proof.
  intros st editorId. unfold getEditorCapacity. apply Math_min_100_bound.
Qed.

Lemma capacity_or_40_truthy (st : Planner) (editorId : string) :
  ToBoolean (capacity_or_40 st editorId) = true.
Proof.
  unfold capacity_or_40.
  destruct (find (fun e => Editor.id e === editorId) (editors st)) as [e|];
    [|reflexivity].
  now destruct (Editor.weeklyCapacity e).
Qed.

(** X6. An editor without jobs in the selected week has a load of
    zero: plus or minus 0, whatever its capacity is. *)
Theorem getEditorCapacity_no_jobs :
  forall st editorId,
    week_hours st editorId = [] ->
    exists s, getEditorCapacity st editorId = S754_zero s.
Proof.
  intros st editorId H. rewrite getEditorCapacity_load, H.
  pose proof (capacity_or_40_truthy st editorId) as T.
  unfold load. rewrite lit_100.
  destruct (capacity_or_40 st editorId) as [s|s| |s m e]; try discriminate.
  - destruct s; eexists; reflexivity.
  - destruct s; eexists; reflexivity.
Qed.

Lemma getEditorCapacity_no_jobs_witness :
  exists s, getEditorCapacity planner_25_of_40 "e9" = S754_zero s.
Proof.
  exact (getEditorCapacity_no_jobs planner_25_of_40 "e9" eq_refl).
Defined.

(** ** [addJob] and [deleteJob] *)

Lemma exactly_0_to_snoc (n : nat) (l : list Z) :
  exactly_0_to n l -> exactly_0_to (S n) (l ++ [Z.of_nat n]).
Proof.
  intros (Hlen & Hnd & Hin). split; [|split].
  - rewrite length_app, Hlen. simpl. lia.
  - apply (Permutation_NoDup (l := Z.of_nat n :: l)).
    + apply Permutation_cons_append.
    + constructor; [|exact Hnd]. intros H. apply Hin in H. lia.
  - intros k. rewrite in_app_iff, Hin. simpl. lia.
Qed.

Lemma cell_orders_app (c : Cell) (l l' : list Job.t) :
  cell_orders c (l ++ l') = cell_orders c l ++ cell_orders c l'.
Proof. unfold cell_orders. now rewrite filter_app, map_app. Qed.

Lemma cell_orders_length (c : Cell) (l : list Job.t) :
  List.length (cell_orders c l) = List.length (filter (in_cell c) l).
Proof. unfold cell_orders. apply length_map. Qed.

(** What [addJob] does when the insertion is echoed. *)
Lemma addJob_echoed (render st : Planner) (wr : Writes) (job : JobInput.t)
    (u : User.t) :
  user render = Some u -> echoing wr ->
  exists newJob,
    addJob render st wr job =
    (setJobs (fun prev => prev ++ [newJob]) st,
     [insert_job
        (DbJob.mk (User.id u) (JobInput.editorId job) (JobInput.title job)
                  (JobInput.clientName job) (JobInput.scheduledDate job)
                  (currentWeekStartStr render) (JobInput.estimatedHours job)
                  (JobInput.priority job) (JobInput.status job)
                  (Z.of_nat (List.length
                               (cell_orders (target_cell render job) (jobs render)))));
      seen (toast_success "Job created")],
     Normal (Some newJob)) /\
    cell newJob = target_cell render job /\
    Job.order newJob =
      Z.of_nat (List.length (cell_orders (target_cell render job) (jobs render))).
Proof.
  intros Hu Hecho. unfold addJob. rewrite Hu.
  rewrite cell_orders_length. unfold target_cell, in_cell.
  match goal with
  | |- context [jobs_insert wr ?db] => destruct (Hecho db) as [id E]; rewrite E
  end.
  eexists. split; [reflexivity|]. split; reflexivity.
Qed.

(** The orders of a cell after a job of that cell is appended. *)
Lemma cell_orders_snoc (c : Cell) (l : list Job.t) (job : Job.t) :
  cell job = c -> cell_orders c (l ++ [job]) = cell_orders c l ++ [Job.order job].
Proof.
  intros Hc. rewrite cell_orders_app. f_equal. unfold cell_orders. cbn [filter].
  apply in_cell_true in Hc. now rewrite Hc.
Qed.

(** X7. With a signed-in user and a backend that stores the row it is
    sent, let the call of [addJob] come from a render in which the
    target cell had n jobs.  If at the time of the append the cell
    holds the orders 0, ..., n-1, it holds 0, ..., n afterwards; that is
    so for a call that nothing overlaps.  But the order is counted in
    the render and the job appended to the state of the moment: of two
    calls for one cell that come from the same render, the second gives
    its job the order of the first, and the cell holds that order
    twice. *)
Theorem addJob_keeps_contiguous :
  (forall render st wr job u n,
      user render = Some u ->
      echoing wr ->
      List.length (cell_orders (target_cell render job) (jobs render)) = n ->
      exactly_0_to n (cell_orders (target_cell render job) (jobs st)) ->
      exactly_0_to (S n)
        (cell_orders (target_cell render job)
           (jobs (fst (fst (addJob render st wr job)))))) /\
  (forall render wr job job' u,
      user render = Some u ->
      echoing wr ->
      target_cell render job' = target_cell render job ->
      let st1 := fst (fst (addJob render render wr job)) in
      let st2 := fst (fst (addJob render st1 wr job')) in
      exists newJob newJob',
        jobs st2 = jobs render ++ [newJob; newJob'] /\
        cell newJob = cell newJob' /\
        Job.order newJob = Job.order newJob' /\
        ~ NoDup (cell_orders (target_cell render job) (jobs st2))).
Proof.
  split.
  - intros render st wr job u n Hu Hecho L Hcell.
    destruct (addJob_echoed render st wr job u Hu Hecho) as (newJob & E & Hc & Ho).
    rewrite E. cbn [fst jobs setJobs].
    rewrite (cell_orders_snoc _ _ _ Hc), Ho, L.
    now apply exactly_0_to_snoc.
  - intros render wr job job' u Hu Hecho Hsame st1 st2. subst st2 st1.
    destruct (addJob_echoed render render wr job u Hu Hecho)
      as (newJob & E & Hc & Ho).
    rewrite E. cbn [fst].
    destruct (addJob_echoed render (setJobs (fun prev => prev ++ [newJob]) render)
                wr job' u Hu Hecho) as (newJob' & E' & Hc' & Ho').
    rewrite E'. cbn [fst jobs setJobs].
    rewrite Hsame in Hc', Ho'.
    exists newJob, newJob'. split; [now rewrite <- app_assoc|].
    split; [congruence|]. split; [congruence|].
    rewrite (cell_orders_snoc _ _ _ Hc'), (cell_orders_snoc _ _ _ Hc).
    rewrite Ho', <- Ho. intros Hnd.
    apply NoDup_remove_2 in Hnd. apply Hnd. rewrite app_nil_r.
    apply in_or_app. right. now left.
Qed.

Lemma accepting_writes_echoing : echoing accepting_writes.
Proof. intros db. exists "j-new". reflexivity. Defined.

Lemma addJob_keeps_contiguous_witness :
  exactly_0_to 5
    (cell_orders ("e1", 2, "2024-01-01")
       (jobs (fst (fst (addJob planner_four_jobs planner_four_jobs
                               accepting_writes teaser))))) /\
  ~ NoDup
      (cell_orders ("e1", 2, "2024-01-01")
         (jobs (fst (fst (addJob planner_four_jobs
                            (fst (fst (addJob planner_four_jobs planner_four_jobs
                                              accepting_writes teaser)))
                            accepting_writes teaser))))).
Proof.
  split.
  - exact (proj1 addJob_keeps_contiguous planner_four_jobs planner_four_jobs
             accepting_writes teaser (User.mk "u1") 4%nat eq_refl
             accepting_writes_echoing eq_refl four_job_cell_orders).
  - destruct (proj2 addJob_keeps_contiguous planner_four_jobs accepting_writes
                teaser teaser (User.mk "u1") eq_refl accepting_writes_echoing eq_refl)
      as (newJob & newJob' & _ & _ & _ & H).
    exact H.
Defined.



(** Removing the job with a given identifier from a cell. *)
Lemma filter_remove_one (p : Job.t -> bool) (job : Job.t) (l : list Job.t) :
  NoDup (map Job.id l) -> In job l -> p job = true ->
  Permutation (filter p l)
    (job :: filter p (filter (fun x => negb (Job.id x === Job.id job)) l)).
Proof.
  intros Hnd Hin Hp. induction l as [|x l IH]; [contradiction|].
  simpl in Hnd. inversion Hnd as [|? ? Hx Hnd']; subst.
  destruct Hin as [->|Hin].
  - cbn [filter]. rewrite Hp, String.eqb_refl. cbn [negb].
    apply perm_skip. apply Permutation_refl'. f_equal.
    symmetry. apply forallb_filter_id. apply forallb_forall. intros y Hy.
    apply negb_true_iff, String.eqb_neq. intros E. apply Hx. rewrite <- E.
    now apply in_map.
  - assert (N : Job.id x <> Job.id job).
    { intros E. apply Hx. rewrite E. now apply in_map. }
    cbn [filter]. apply String.eqb_neq in N. rewrite N. cbn [negb filter].
    destruct (p x).
    + etransitivity; [apply perm_skip, IH; assumption | apply perm_swap].
    + now apply IH.
Qed.

Lemma deleteJob_accepted (st : Planner) (be : Backend) (wr : Writes) (jobId : string) :
  jobs_delete wr jobId = Data tt ->
  deleteJob st be wr jobId =
  (setJobs (filter (fun job => negb (Job.id job === jobId))) st,
   [delete_job jobId; seen (toast_success "Job deleted")]).
Proof. intros E. unfold deleteJob. now rewrite E. Qed.

(** The orders a cell keeps when one of its jobs is filtered out. *)
Lemma deleted_cell_orders (l : list Job.t) (job : Job.t) (n : nat) :
  unique_ids l ->
  In job l ->
  exactly_0_to n (cell_orders (cell job) l) ->
  Job.order job < Z.of_nat n - 1 ->
  let rest :=
    cell_orders (cell job) (filter (fun x => negb (Job.id x === Job.id job)) l) in
  List.length rest = (n - 1)%nat /\
  In (Z.of_nat n - 1) rest /\
  ~ In (Job.order job) rest /\
  0 <= Job.order job.
Proof.
  intros Hids Hin Hcell Hlast rest. subst rest.
  assert (P : Permutation (cell_orders (cell job) l)
                (Job.order job ::
                 cell_orders (cell job)
                   (filter (fun x => negb (Job.id x === Job.id job)) l))).
  { unfold cell_orders.
    apply (Permutation_map Job.order
             (l := filter (in_cell (cell job)) l)
             (l' := job :: filter (in_cell (cell job))
                             (filter (fun x => negb (Job.id x === Job.id job)) l))).
    apply filter_remove_one; [exact Hids | exact Hin | now apply in_cell_true]. }
  pose proof (exactly_0_to_Permutation n _ _ P Hcell) as (Hlen & Hnd & Hrange).
  apply NoDup_cons_iff in Hnd. destruct Hnd as [Hnot Hnd'].
  assert (Z0 : 0 <= Job.order job) by (apply Hrange; now left).
  split; [simpl in Hlen; lia|]. split; [|split; [exact Hnot | exact Z0]].
  assert (H : In (Z.of_nat n - 1)
                (Job.order job ::
                 cell_orders (cell job)
                   (filter (fun x => negb (Job.id x === Job.id job)) l)))
    by (apply Hrange; simpl in Hlen; lia).
  destruct H as [H|H]; [lia | exact H].
Qed.

(** X9. [deleteJob] does not renumber.  In a collection with pairwise
    distinct identifiers, let the cell of a job hold the orders
    0, ..., n-1, the job not being the last one; after its accepted
    deletion the cell still holds the order n-1 but not the order of the
    deleted job, so its orders are not 0, ..., m-1 for any m. *)
Theorem deleteJob_leaves_gap :
  forall st be wr job n,
    unique_ids (jobs st) ->
    In job (jobs st) ->
    exactly_0_to n (cell_orders (cell job) (jobs st)) ->
    Job.order job < Z.of_nat n - 1 ->
    jobs_delete wr (Job.id job) = Data tt ->
    let st' := fst (deleteJob st be wr (Job.id job)) in
    List.length (cell_orders (cell job) (jobs st')) = (n - 1)%nat /\
    In (Z.of_nat n - 1) (cell_orders (cell job) (jobs st')) /\
    forall m, ~ exactly_0_to m (cell_orders (cell job) (jobs st')).
Proof.
  intros st be wr job n Hids Hin Hcell Hlast Hdel st'. subst st'.
  rewrite (deleteJob_accepted st be wr _ Hdel). cbn [fst jobs setJobs].
  destruct (deleted_cell_orders (jobs st) job n Hids Hin Hcell Hlast)
    as (Hlen & A & Hnot & Z0).
  split; [exact Hlen|]. split; [exact A|].
  intros m (_ & _ & Hm). apply Hnot. apply Hm. apply Hm in A. lia.
Qed.

Lemma deleteJob_leaves_gap_witness :
  let st' := fst (deleteJob planner_four_jobs (answering_backend "free")
                            accepting_writes "b") in
  List.length (cell_orders ("e1", 2, "2024-01-01") (jobs st')) = 3%nat /\
  In 3 (cell_orders ("e1", 2, "2024-01-01") (jobs st')) /\
  forall m, ~ exactly_0_to m (cell_orders ("e1", 2, "2024-01-01") (jobs st')).
Proof.
  assert (H : In (job_at "b" "e1" 2 "2024-01-01" 1) (jobs planner_four_jobs))
    by (simpl; auto).
  assert (L : Job.order (job_at "b" "e1" 2 "2024-01-01" 1) < Z.of_nat 4 - 1)
    by (simpl; lia).
  exact (deleteJob_leaves_gap planner_four_jobs (answering_backend "free")
           accepting_writes (job_at "b" "e1" 2 "2024-01-01" 1) 4
           four_job_cell_ids H four_job_cell_orders L eq_refl).
Defined.

(** X10. Deleting and adding do not compose to a well-numbered cell.
    Under the hypotheses of X9, with a signed-in user and a backend that
    stores the row it is sent, adding a job to the same cell from the
    render that follows the deletion gives it the order n-1, which a job
    of the cell already has: the orders of the cell contain a
    duplicate. *)
Theorem deleteJob_then_addJob_duplicates :
  forall st be wr job n input u,
    user st = Some u ->
    unique_ids (jobs st) ->
    In job (jobs st) ->
    cell job = target_cell st input ->
    exactly_0_to n (cell_orders (cell job) (jobs st)) ->
    Job.order job < Z.of_nat n - 1 ->
    jobs_delete wr (Job.id job) = Data tt ->
    echoing wr ->
    let st1 := fst (deleteJob st be wr (Job.id job)) in
    let st2 := fst (fst (addJob st1 st1 wr input)) in
    ~ NoDup (cell_orders (cell job) (jobs st2)).
Proof.
  intros st be wr job n input u Hu Hids Hin Hc Hcell Hlast Hdel Hecho st1 st2.
  destruct (deleted_cell_orders (jobs st) job n Hids Hin Hcell Hlast)
    as (Hlen & Hmax & _).
  assert (J : jobs st1 = filter (fun x => negb (Job.id x === Job.id job)) (jobs st)).
  { unfold st1. now rewrite (deleteJob_accepted st be wr _ Hdel). }
  rewrite <- J in Hlen, Hmax.
  assert (Hu1 : user st1 = Some u).
  { unfold st1. rewrite (deleteJob_accepted st be wr _ Hdel). exact Hu. }
  assert (Hw : target_cell st1 input = cell job).
  { unfold st1. rewrite (deleteJob_accepted st be wr _ Hdel). now rewrite Hc. }
  destruct (addJob_echoed st1 st1 wr input u Hu1 Hecho) as (newJob & E & Hcn & Ho).
  unfold st2. rewrite E. cbn [fst jobs setJobs]. rewrite cell_orders_app.
  rewrite Hw in Hcn, Ho. rewrite Hlen in Ho.
  unfold cell_orders at 2. cbn [filter].
  apply in_cell_true in Hcn. rewrite Hcn. cbn [map]. rewrite Ho.
  intros Hnd. apply NoDup_remove_2 in Hnd. apply Hnd. rewrite app_nil_r.
  assert (G : (1 <= n - 1)%nat).
  { rewrite <- Hlen. destruct (cell_orders (cell job) (jobs st1));
      [contradiction | simpl; lia]. }
  replace (Z.of_nat (n - 1)) with (Z.of_nat n - 1) by lia. exact Hmax.
Qed.

Lemma deleteJob_then_addJob_duplicates_witness :
  let st1 := fst (deleteJob planner_four_jobs (answering_backend "free")
                            accepting_writes "b") in
  let st2 := fst (fst (addJob st1 st1 accepting_writes teaser)) in
  ~ NoDup (cell_orders ("e1", 2, "2024-01-01") (jobs st2)).
Proof.
  assert (H : In (job_at "b" "e1" 2 "2024-01-01" 1) (jobs planner_four_jobs))
    by (simpl; auto).
  assert (L : Job.order (job_at "b" "e1" 2 "2024-01-01" 1) < Z.of_nat 4 - 1)
    by (simpl; lia).
  exact (deleteJob_then_addJob_duplicates planner_four_jobs (answering_backend "free")
           accepting_writes (job_at "b" "e1" 2 "2024-01-01" 1) 4 teaser (User.mk "u1")
           eq_refl four_job_cell_ids H eq_refl four_job_cell_orders L eq_refl
           accepting_writes_echoing).
Defined.

(** ** [updateJob] *)

Lemma formatJob_job_row (j : Job.t) : formatJob (job_row j) = j.
Proof. destruct j; reflexivity. Qed.


Lemma updateJob_accepted (st : Planner) (be : Backend) (wr : Writes)
    (jobId : string) (updates : JobPatch.t) :
  jobs_update wr jobId (job_dbUpdates updates) = Data tt ->
  updateJob st be wr jobId updates =
  (setJobs (patched_jobs jobId updates) st, [update_job jobId (job_dbUpdates updates)]).
Proof. intros E. unfold updateJob. now rewrite E. Qed.



Lemma spread_spread {A : Type} (old : A) (update : option A) :
  spread (spread old update) update = spread old update.
Proof. now destruct update. Qed.

Lemma merge_job_idempotent (job : Job.t) (updates : JobPatch.t) :
  merge_job (merge_job job updates) updates = merge_job job updates.
Proof. unfold merge_job. cbn. now rewrite !spread_spread. Qed.

(** X12. Repeating an accepted [updateJob] changes no job further, and
    an accepted update for an identifier that no job carries changes no
    job at all, although its request is sent. *)
Theorem updateJob_idempotent :
  forall st be wr jobId updates,
    jobs_update wr jobId (job_dbUpdates updates) = Data tt ->
    let st1 := fst (updateJob st be wr jobId updates) in
    fst (updateJob st1 be wr jobId updates) = st1 /\
    ((forall job, In job (jobs st) -> Job.id job <> jobId) ->
     updateJob st be wr jobId updates =
     (st, [update_job jobId (job_dbUpdates updates)])).
Proof.
  intros st be wr jobId updates Hacc st1. subst st1.
  rewrite !(updateJob_accepted _ be wr jobId updates Hacc). cbn [fst].
  split.
  - unfold setJobs. cbn. f_equal. unfold patched_jobs. rewrite map_map.
    apply map_ext. intros job.
    destruct (String.eqb_spec (Job.id job) jobId) as [E|N].
    + destruct (String.eqb_spec (Job.id (merge_job job updates)) jobId);
        [apply merge_job_idempotent | reflexivity].
    + apply String.eqb_neq in N. now rewrite N.
  - intros H. f_equal. destruct st as [u lo ed js w]. unfold setJobs. cbn in *.
    f_equal. unfold patched_jobs. rewrite <- (map_id js) at 2.
    apply map_ext_in. intros job Hj. apply H in Hj. apply String.eqb_neq in Hj.
    now rewrite Hj.
Qed.

Lemma updateJob_idempotent_witness :
  let st1 := fst (updateJob planner_four_jobs stored_backend accepting_writes "b"
                            (rename_to "Trailer")) in
  fst (updateJob st1 stored_backend accepting_writes "b" (rename_to "Trailer")) = st1.
Proof.
  exact (proj1 (updateJob_idempotent planner_four_jobs stored_backend accepting_writes
                  "b" (rename_to "Trailer") eq_refl)).
Defined.

(** ** The reload after a failed write *)

Lemma fetchData_delivers (st : Planner) (be : Backend) editorsData allJobsData :
  reload_delivers st be editorsData allJobsData ->
  fst (fetchData st be) =
  mkPlanner (user st) false (map formatEditor editorsData)
            (map formatJob allJobsData) (currentWeekStartStr st).
Proof.
  intros (Hu & He & Hw & Hj). unfold fetchData.
  destruct st as [[u|] lo ed js w]; cbn in *; [|contradiction]. rewrite He.
  destruct (jobs_select_week be w) as [r|m|m] eqn:W;
    [| |exfalso; exact (Hw m eq_refl)]; rewrite Hj; reflexivity.
Qed.

Lemma fetchData_keeps_jobs (st : Planner) (be : Backend) :
  user st <> None ->
  (forall editorsData allJobsData, ~ reload_delivers st be editorsData allJobsData) ->
  jobs (fst (fetchData st be)) = jobs st.
Proof.
  intros Hu H. unfold fetchData, reload_delivers in *.
  destruct st as [[u|] lo ed js w]; cbn in *; [|contradiction].
  destruct (editors_select be) as [erows|m|m] eqn:He; try reflexivity.
  destruct (jobs_select_week be w) as [r|m|m] eqn:W;
    try reflexivity;
    destruct (jobs_select be) as [jrows|m'|m'] eqn:Hj; try reflexivity;
    exfalso; apply (H erows jrows); repeat split; auto; discriminate.
Qed.

Lemma fst_let {A B C : Type} (p : A * B) (g : B -> C) :
  fst (let '(a, b) := p in (a, g b)) = fst p.
Proof. now destruct p. Qed.

(** X13. After a failed [updateJob] or [deleteJob] the reload decides.
    With a signed-in user, if the three queries of the reload deliver,
    the local jobs and editors are the stored rows and the optimistic
    change is gone; if they do not, the optimistic change stays in the
    local state. *)
Theorem failed_write_reload :
  forall st be wr jobId,
    user st <> None ->
    (forall updates,
        (forall r, jobs_update wr jobId (job_dbUpdates updates) <> Data r) ->
        let st' := fst (updateJob st be wr jobId updates) in
        (forall editorsData allJobsData,
            reload_delivers st be editorsData allJobsData ->
            jobs st' = map formatJob allJobsData /\
            editors st' = map formatEditor editorsData) /\
        ((forall editorsData allJobsData,
             ~ reload_delivers st be editorsData allJobsData) ->
         jobs st' = patched_jobs jobId updates (jobs st))) /\
    ((forall r, jobs_delete wr jobId <> Data r) ->
     let st' := fst (deleteJob st be wr jobId) in
     (forall editorsData allJobsData,
         reload_delivers st be editorsData allJobsData ->
         jobs st' = map formatJob allJobsData /\
         editors st' = map formatEditor editorsData) /\
     ((forall editorsData allJobsData,
          ~ reload_delivers st be editorsData allJobsData) ->
      jobs st' = filter (fun job => negb (Job.id job === jobId)) (jobs st))).
Proof.
  intros st be wr jobId Hu. split.
  - intros updates Hup st'.
    assert (U : st' = fst (fetchData (setJobs (patched_jobs jobId updates) st) be)).
    { subst st'. unfold updateJob.
      destruct (jobs_update wr jobId (job_dbUpdates updates)) as [r|m|m] eqn:E;
        [exfalso; exact (Hup r eq_refl) | |];
        exact (fst_let _ (fun log => _)). }
    rewrite U. split.
    + intros erows jrows R.
      rewrite !(fetchData_delivers _ be erows jrows) by exact R. split; reflexivity.
    + intros H. apply fetchData_keeps_jobs; auto.
  - intros Hdel st'.
    assert (D : st' = fst (fetchData
                             (setJobs (filter (fun job => negb (Job.id job === jobId)))
                                      st) be)).
    { subst st'. unfold deleteJob.
      destruct (jobs_delete wr jobId) as [r|m|m] eqn:E;
        [exfalso; exact (Hdel r eq_refl) | |];
        exact (fst_let _ (fun log => _)). }
    rewrite D. split.
    + intros erows jrows R.
      rewrite !(fetchData_delivers _ be erows jrows) by exact R. split; reflexivity.
    + intros H. apply fetchData_keeps_jobs; auto.
Qed.

Lemma failed_write_reload_witness :
  jobs (fst (updateJob planner_four_jobs stored_backend refusing_writes "b"
                       (rename_to "Trailer"))) = four_job_cell /\
  jobs (fst (deleteJob planner_four_jobs stored_backend refusing_writes "b"))
  = four_job_cell.
Proof.
  assert (Hu : user planner_four_jobs <> None) by discriminate.
  assert (H1 : forall r, jobs_update refusing_writes "b"
                           (job_dbUpdates (rename_to "Trailer")) <> Data r)
    by (intros r; discriminate).
  assert (H2 : forall r, jobs_delete refusing_writes "b" <> Data r)
    by (intros r; discriminate).
  assert (R : reload_delivers planner_four_jobs stored_backend
                [EditorRow.mk "e1" "Alice" (lit 40)] (map job_row four_job_cell)).
  { split; [exact Hu|]. split; [reflexivity|]. split; [|reflexivity].
    intros message. discriminate. }
  split.
  - exact (proj1 (proj1 (proj1 (failed_write_reload planner_four_jobs stored_backend
                                  refusing_writes "b" Hu)
                               (rename_to "Trailer") H1) _ _ R)).
  - exact (proj1 (proj1 (proj2 (failed_write_reload planner_four_jobs stored_backend
                                  refusing_writes "b" Hu) H2) _ _ R)).
Defined.

(** ** [updateEditor] and [deleteEditor] against [getEditorCapacity] *)

Lemma find_map {A : Type} (p : A -> bool) (g : A -> A) (l : list A) :
  find p (map g l) = option_map g (find (fun x => p (g x)) l).
Proof.
  induction l as [|x l IH]; [reflexivity|]. cbn [map find].
  destruct (p (g x)); [reflexivity | exact IH].
Qed.

Lemma find_filter_negb {A : Type} (p : A -> bool) (l : list A) :
  find p (filter (fun x => negb (p x)) l) = None.
Proof.
  induction l as [|x l IH]; [reflexivity|]. cbn [filter].
  destruct (p x) eqn:E; cbn [negb]; [exact IH|]. cbn [find]. now rewrite E.
Qed.

Lemma updateEditor_accepted (st : Planner) (be : Backend) (wr : Writes)
    (editorId : string) (updates : EditorPatch.t) :
  (forall message,
      editors_update wr editorId (editor_dbUpdates updates) <> Rejected message) ->
  updateEditor st be wr editorId updates =
  (setEditors (map (fun editor => if Editor.id editor === editorId
                                  then merge_editor editor updates else editor)) st,
   [update_editor editorId (editor_dbUpdates updates)]).
Proof.
  intros H. unfold updateEditor.
  destruct (editors_update wr editorId (editor_dbUpdates updates)) as [r|m|m];
    [reflexivity | reflexivity | exfalso; exact (H m eq_refl)].
Qed.

(** X14. A capacity of zero (or [NaN]) given to [updateEditor] is
    stored locally but left out of the request, so the backend keeps the
    old capacity; and from then on [getEditorCapacity] measures the
    editor's hours against 40. *)
Theorem updateEditor_zero_capacity :
  forall st be wr editorId updates capacity,
    EditorPatch.weeklyCapacity updates = Some capacity ->
    ToBoolean capacity = false ->
    (forall message,
        editors_update wr editorId (editor_dbUpdates updates) <> Rejected message) ->
    let st' := fst (updateEditor st be wr editorId updates) in
    let request := editor_dbUpdates updates in
    snd (updateEditor st be wr editorId updates) = [update_editor editorId request] /\
    EditorRowPatch.weekly_capacity request = None /\
    (forall editor, In editor (editors st) -> Editor.id editor = editorId ->
       exists editor', In editor' (editors st') /\
                       Editor.weeklyCapacity editor' = capacity) /\
    getEditorCapacity st' editorId = load (week_hours st editorId) (lit 40).
Proof.
  intros st be wr editorId updates capacity Hc Hf Hacc st' request. subst st' request.
  rewrite (updateEditor_accepted st be wr editorId updates Hacc). cbn [fst snd].
  split; [reflexivity|]. split; [|split].
  - unfold editor_dbUpdates. cbn. rewrite Hc. cbn. now rewrite Hf.
  - intros editor Hin Hid. exists (merge_editor editor updates). split.
    + cbn [editors setEditors]. apply in_map_iff. exists editor. split; [|exact Hin].
      apply String.eqb_eq in Hid. now rewrite Hid.
    + unfold merge_editor. cbn. now rewrite Hc.
  - rewrite getEditorCapacity_load. f_equal.
    unfold capacity_or_40. cbn [editors setEditors]. rewrite find_map.
    destruct (find _ (editors st)) as [e|] eqn:F; [|reflexivity].
    apply find_some in F. destruct F as [_ F]. cbn [option_map].
    destruct (Editor.id e === editorId) eqn:E.
    + unfold merge_editor. cbn. rewrite Hc. cbn. now destruct capacity.
    + rewrite E in F. discriminate F.
Qed.

Lemma updateEditor_zero_capacity_witness :
  let st' := fst (updateEditor planner_four_jobs stored_backend accepting_writes "e1"
                               zero_capacity) in
  EditorRowPatch.weekly_capacity (editor_dbUpdates zero_capacity) = None /\
  getEditorCapacity st' "e1" = load (week_hours planner_four_jobs "e1") (lit 40).
Proof.
  assert (H : forall message,
             editors_update accepting_writes "e1" (editor_dbUpdates zero_capacity)
             <> Rejected message) by (intros message; discriminate).
  destruct (updateEditor_zero_capacity planner_four_jobs stored_backend accepting_writes
              "e1" zero_capacity (lit 0) eq_refl eq_refl H) as (_ & A & _ & B).
  split; [exact A | exact B].
Defined.

(** X15. Once [deleteEditor] has gone through, the jobs of the deleted
    editor are still counted for it, and [getEditorCapacity] measures
    their hours against 40, whatever the capacity of the editor was. *)
Theorem deleteEditor_then_capacity :
  forall st be editorId,
    (forall message, editors_delete be editorId <> Rejected message) ->
    let st' := fst (deleteEditor st be editorId) in
    getEditorJobCount st' editorId = getEditorJobCount st editorId /\
    getEditorJobs st' editorId = getEditorJobs st editorId /\
    getEditorCapacity st' editorId = load (week_hours st editorId) (lit 40).
Proof.
  intros st be editorId H st'. subst st'. unfold deleteEditor.
  destruct (editors_delete be editorId) as [r|m|m];
    [| |exfalso; exact (H m eq_refl)]; cbn [fst];
    (split; [reflexivity|]; split; [reflexivity|];
     rewrite getEditorCapacity_load; f_equal;
     unfold capacity_or_40; cbn [editors setEditors];
     now rewrite (find_filter_negb (fun e => Editor.id e === editorId))).
Qed.

Lemma deleteEditor_then_capacity_witness :
  let st' := fst (deleteEditor planner_four_jobs stored_backend "e1") in
  getEditorCapacity st' "e1" = load (week_hours planner_four_jobs "e1") (lit 40).
Proof.
  assert (H : forall message, editors_delete stored_backend "e1" <> Rejected message)
    by (intros message; discriminate).
  exact (proj2 (proj2 (deleteEditor_then_capacity planner_four_jobs stored_backend
                         "e1" H))).
Defined.

(** ** [reassignEditorJobs] *)

Lemma reassignEditorJobs_accepted (st : Planner) (be : Backend) (wr : Writes)
    (fromEditorId toEditorId : string) :
  (forall message, jobs_update_editor wr fromEditorId toEditorId <> Rejected message) ->
  reassignEditorJobs st be wr fromEditorId toEditorId =
  (setJobs (map (fun job => if Job.editorId job === fromEditorId
                            then with_editor job toEditorId else job)) st,
   [reassign_jobs fromEditorId toEditorId]).
Proof.
  intros H. unfold reassignEditorJobs.
  destruct (jobs_update_editor wr fromEditorId toEditorId) as [r|m|m];
    [reflexivity | reflexivity | exfalso; exact (H m eq_refl)].
Qed.

Lemma count_reassigned (fromEditorId toEditorId editorId : string) (l : list Job.t) :
  fromEditorId <> toEditorId ->
  List.length
    (filter (fun job => Job.editorId job === editorId)
       (map (fun job => if Job.editorId job === fromEditorId
                        then with_editor job toEditorId else job) l)) =
  if editorId === fromEditorId then 0%nat
  else if editorId === toEditorId
       then (List.length (filter (fun job => Job.editorId job === fromEditorId) l)
             + List.length (filter (fun job => Job.editorId job === toEditorId) l))%nat
       else List.length (filter (fun job => Job.editorId job === editorId) l).
Proof.
  intros Hne. induction l as [|x l IH].
  - cbn. now destruct (editorId === fromEditorId), (editorId === toEditorId).
  - cbn [map filter]. revert IH.
    destruct (String.eqb_spec (Job.editorId x) fromEditorId) as [Ef|Ef];
      cbn [with_editor Job.editorId];
      destruct (String.eqb_spec editorId fromEditorId) as [E1|E1];
      destruct (String.eqb_spec editorId toEditorId) as [E2|E2];
      try (exfalso; congruence);
      repeat match goal with
             | |- context [?a === ?b] =>
                 destruct (String.eqb_spec a b); try (exfalso; congruence)
             end;
      cbn [List.length]; intros IH; lia.
Qed.

(** X16. After an accepted [reassignEditorJobs] between two different
    editors, the source editor has no job, the target editor has the
    jobs of both, and every other editor has as many as before. *)
Theorem reassignEditorJobs_counts :
  forall st be wr fromEditorId toEditorId editorId,
    (forall message,
        jobs_update_editor wr fromEditorId toEditorId <> Rejected message) ->
    fromEditorId <> toEditorId ->
    let st' := fst (reassignEditorJobs st be wr fromEditorId toEditorId) in
    getEditorJobCount st' fromEditorId = 0%nat /\
    getEditorJobCount st' toEditorId =
      (getEditorJobCount st fromEditorId + getEditorJobCount st toEditorId)%nat /\
    (editorId <> fromEditorId -> editorId <> toEditorId ->
     getEditorJobCount st' editorId = getEditorJobCount st editorId) /\
    List.length (jobs st') = List.length (jobs st).
Proof.
  intros st be wr fromEditorId toEditorId editorId H Hne st'. subst st'.
  rewrite (reassignEditorJobs_accepted st be wr fromEditorId toEditorId H).
  unfold getEditorJobCount. cbn [fst jobs setJobs].
  rewrite !count_reassigned by exact Hne.
  rewrite !String.eqb_refl.
  destruct (String.eqb_spec toEditorId fromEditorId) as [E|_]; [congruence|].
  split; [reflexivity|]. split; [reflexivity|]. split.
  - intros N1 N2. apply String.eqb_neq in N1, N2. now rewrite N1, N2.
  - apply length_map.
Qed.

Lemma reassignEditorJobs_counts_witness :
  let st' := fst (reassignEditorJobs planner_two_editors stored_backend
                                     accepting_writes "e1" "e2") in
  getEditorJobCount st' "e1" = 0%nat /\
  getEditorJobCount st' "e2" =
    (getEditorJobCount planner_two_editors "e1"
     + getEditorJobCount planner_two_editors "e2")%nat.
Proof.
  assert (H : forall message,
             jobs_update_editor accepting_writes "e1" "e2" <> Rejected message)
    by (intros message; discriminate).
  assert (N : "e1" <> "e2") by discriminate.
  destruct (reassignEditorJobs_counts planner_two_editors stored_backend
              accepting_writes "e1" "e2" "e1" H N) as (A & B & _).
  split; [exact A | exact B].
Defined.

Lemma NoDup_map_inj_on {A B : Type} (f : A -> B) (l : list A) (x y : A) :
  NoDup (map f l) -> In x l -> In y l -> f x = f y -> x = y.
Proof.
  induction l as [|z l IH]; [contradiction|]. cbn [map]. intros Hnd Hx Hy E.
  apply NoDup_cons_iff in Hnd. destruct Hnd as [Hz Hnd].
  destruct Hx as [<-|Hx], Hy as [<-|Hy].
  - reflexivity.
  - exfalso. apply Hz. rewrite E. now apply in_map.
  - exfalso. apply Hz. rewrite <- E. now apply in_map.
  - now apply IH.
Qed.

(** X17. [reassignEditorJobs] keeps every job's day, week and order:
    when a job of the source editor and a job of the target editor sit
    at the same position of the same day, both end up in one cell of the
    target editor with the same order, so the orders of that cell are no
    longer pairwise different. *)
Theorem reassignEditorJobs_order_collision :
  forall st be wr fromEditorId toEditorId a b,
    (forall message,
        jobs_update_editor wr fromEditorId toEditorId <> Rejected message) ->
    unique_ids (jobs st) ->
    In a (jobs st) -> In b (jobs st) ->
    Job.editorId a = fromEditorId -> Job.editorId b = toEditorId ->
    fromEditorId <> toEditorId ->
    Job.scheduledDate a = Job.scheduledDate b ->
    Job.weekStart a = Job.weekStart b ->
    Job.order a = Job.order b ->
    let st' := fst (reassignEditorJobs st be wr fromEditorId toEditorId) in
    unique_ids (jobs st') /\
    ~ NoDup (cell_orders (cell b) (jobs st')).
Proof.
  intros st be wr fromEditorId toEditorId a b H Hu Ha Hb Ea Eb Hne Ed Ew Eo st'.
  subst st'. rewrite (reassignEditorJobs_accepted st be wr fromEditorId toEditorId H).
  cbn [fst jobs setJobs].
  set (r := fun job => if Job.editorId job === fromEditorId
                       then with_editor job toEditorId else job).
  assert (Rid : forall x, Job.id (r x) = Job.id x).
  { intros x. unfold r. now destruct (Job.editorId x === fromEditorId). }
  split.
  - unfold unique_ids in *. rewrite map_map.
    rewrite (map_ext _ Job.id Rid). exact Hu.
  - intros Hnd. unfold cell_orders in Hnd.
    assert (Ra : r a = with_editor a toEditorId).
    { unfold r. apply String.eqb_eq in Ea. now rewrite Ea. }
    assert (Rb : r b = b).
    { unfold r. destruct (String.eqb_spec (Job.editorId b) fromEditorId); [|reflexivity].
      congruence. }
    assert (Ia : In (r a) (filter (in_cell (cell b)) (map r (jobs st)))).
    { apply filter_In. split; [now apply in_map|]. rewrite Ra.
      apply in_cell_true. unfold cell, with_editor. cbn. congruence. }
    assert (Ib : In (r b) (filter (in_cell (cell b)) (map r (jobs st)))).
    { apply filter_In. split; [now apply in_map|]. rewrite Rb.
      apply in_cell_true. reflexivity. }
    assert (Eab : r a = r b).
    { apply (NoDup_map_inj_on Job.order _ _ _ Hnd Ia Ib).
      rewrite Ra, Rb. exact Eo. }
    assert (Eid : Job.id a = Job.id b).
    { rewrite <- (Rid a), <- (Rid b). now rewrite Eab. }
    assert (a = b) by (apply (NoDup_map_inj_on Job.id _ _ _ Hu Ha Hb Eid)).
    subst b. congruence.
Qed.

Lemma reassignEditorJobs_order_collision_witness :
  let st' := fst (reassignEditorJobs planner_two_editors stored_backend
                                     accepting_writes "e1" "e2") in
  ~ NoDup (cell_orders ("e2", 0, "2024-01-01") (jobs st')).
Proof.
  assert (H : forall message,
             jobs_update_editor accepting_writes "e1" "e2" <> Rejected message)
    by (intros message; discriminate).
  assert (U : unique_ids (jobs planner_two_editors)).
  { unfold unique_ids. cbn. repeat constructor; cbn; intuition discriminate. }
  assert (N : "e1" <> "e2") by discriminate.
  exact (proj2 (reassignEditorJobs_order_collision planner_two_editors stored_backend
                  accepting_writes "e1" "e2"
                  (Job.mk "a" "Intro" "Acme" "e1" 0 "2024-01-01" (lit 4) medium queued 0)
                  (Job.mk "b" "Outro" "Acme" "e2" 0 "2024-01-01" (lit 6) medium queued 0)
                  H U (or_introl eq_refl) (or_intror (or_introl eq_refl))
                  eq_refl eq_refl N eq_refl eq_refl eq_refl)).
Defined.

(** ** [getEditorJobs] and [DroppableCell] *)

Lemma insert_by_order_perm (x : Job.t) (l : list Job.t) :
  Permutation (insert_by_order x l) (x :: l).
Proof.
  induction l as [|y l IH]; [apply Permutation_refl|]. cbn [insert_by_order].
  destruct (Job.order x <=? Job.order y); [apply Permutation_refl|].
  eapply perm_trans; [apply perm_skip; exact IH | apply perm_swap].
Qed.

Lemma sort_by_order_perm (l : list Job.t) : Permutation (sort_by_order l) l.
Proof.
  induction l as [|x l IH]; [apply perm_nil|]. cbn [sort_by_order fold_right].
  eapply perm_trans; [apply insert_by_order_perm | now apply perm_skip].
Qed.

Lemma insert_by_order_sorted (x : Job.t) (l : list Job.t) :
  StronglySorted by_order l -> StronglySorted by_order (insert_by_order x l).
Proof.
  induction 1 as [|y l Hs IH Hy].
  - cbn. constructor; constructor.
  - cbn [insert_by_order]. destruct (Z.leb_spec (Job.order x) (Job.order y)) as [L|L].
    + constructor; [now constructor|]. constructor; [exact L|].
      eapply Forall_impl; [|exact Hy]. unfold by_order. intros z Hz. lia.
    + constructor; [exact IH|].
      eapply Permutation_Forall; [apply Permutation_sym, insert_by_order_perm|].
      constructor; [unfold by_order; lia | exact Hy].
Qed.

Lemma sort_by_order_sorted (l : list Job.t) : StronglySorted by_order (sort_by_order l).
Proof.
  induction l as [|x l IH]; [constructor|]. now apply insert_by_order_sorted.
Qed.

Lemma insert_by_order_stable (o : Z) (x : Job.t) (l : list Job.t) :
  with_order_value o (insert_by_order x l) = with_order_value o (x :: l).
Proof.
  unfold with_order_value. induction l as [|y l IH]; [reflexivity|].
  cbn [insert_by_order]. destruct (Z.leb_spec (Job.order x) (Job.order y)) as [L|L];
    [reflexivity|].
  cbn [filter] in *. rewrite IH.
  destruct (Z.eqb_spec (Job.order x) o), (Z.eqb_spec (Job.order y) o);
    try reflexivity. lia.
Qed.

Lemma sort_by_order_stable (o : Z) (l : list Job.t) :
  with_order_value o (sort_by_order l) = with_order_value o l.
Proof.
  induction l as [|x l IH]; [reflexivity|]. cbn [sort_by_order fold_right].
  rewrite insert_by_order_stable. unfold with_order_value in *. cbn [filter].
  fold (sort_by_order l). now rewrite IH.
Qed.

(** X18. [getEditorJobs] returns the jobs of the editor in the displayed
    week, each as often as the collection has it, in non-decreasing
    order; jobs with equal orders keep the sequence of the collection. *)
Theorem getEditorJobs_sorted :
  forall st editorId,
    StronglySorted by_order (getEditorJobs st editorId) /\
    Permutation (getEditorJobs st editorId) (editor_week_jobs st editorId) /\
    forall o, with_order_value o (getEditorJobs st editorId) =
              with_order_value o (editor_week_jobs st editorId).
Proof.
  intros st editorId. unfold getEditorJobs. fold (editor_week_jobs st editorId).
  split; [apply sort_by_order_sorted|].
  split; [apply sort_by_order_perm | intros o; apply sort_by_order_stable].
Qed.

Lemma sorted_counts_from (l : list Z) :
  forall a,
    StronglySorted Z.le l -> NoDup l ->
    (forall x, In x l -> a <= x < a + Z.of_nat (List.length l)) ->
    counts_from a l.
Proof.
  induction l as [|x l IH]; intros a Hs Hnd Hr; [exact I|].
  apply StronglySorted_inv in Hs. destruct Hs as [Hs Hx].
  apply NoDup_cons_iff in Hnd. destruct Hnd as [Hnx Hnd].
  rewrite Forall_forall in Hx.
  assert (T : counts_from (a + 1) l).
  { apply IH; [exact Hs | exact Hnd|]. intros y Hy.
    pose proof (Hr y (or_intror Hy)) as R. pose proof (Hr x (or_introl eq_refl)) as Rx.
    pose proof (Hx y Hy) as L. cbn [List.length] in R.
    assert (y <> x) by (intros ->; contradiction). lia. }
  split; [|exact T].
  pose proof (Hr x (or_introl eq_refl)) as Rx. cbn [List.length] in Rx.
  destruct l as [|y l]; [cbn in Rx; lia|].
  destruct T as [-> _]. pose proof (Hx _ (or_introl eq_refl)) as L.
  assert (a + 1 <> x) by (intros E; apply Hnx; left; exact E). lia.
Qed.

Lemma cards_from_counts (l : list Job.t) :
  forall index,
    counts_from (Z.of_nat index) (map Job.order l) ->
    Forall2 card_of (cards_from index l) l.
Proof.
  induction l as [|job l IH]; intros index H; [constructor|].
  cbn [map counts_from] in H. destruct H as [E T]. cbn [cards_from].
  constructor.
  - split; [reflexivity | cbn; now rewrite E].
  - apply IH. now rewrite Nat2Z.inj_succ.
Qed.

Lemma StronglySorted_map_order (l : list Job.t) :
  StronglySorted by_order l -> StronglySorted Z.le (map Job.order l).
Proof.
  induction 1 as [|x l Hs IH Hx]; [constructor|]. cbn [map].
  constructor; [exact IH|]. rewrite Forall_forall in *. intros o Ho.
  apply in_map_iff in Ho. destruct Ho as (y & <- & Hy). exact (Hx y Hy).
Qed.

(** X19. When the orders of the jobs handed to [DroppableCell] are
    exactly 0, ..., n-1, each card shows a job at the index that is the
    job's order, so a position of the list is an order of the cell. *)
Theorem DroppableCell_index_is_order :
  forall jobs n,
    exactly_0_to n (map Job.order jobs) ->
    Forall2 card_of (DroppableCell_cards jobs) (sort_by_order jobs) /\
    Permutation (sort_by_order jobs) jobs.
Proof.
  intros jobs n (Hlen & Hnd & Hr). split; [|apply sort_by_order_perm].
  unfold DroppableCell_cards. apply cards_from_counts.
  assert (P : Permutation (map Job.order jobs) (map Job.order (sort_by_order jobs)))
    by (apply Permutation_map, Permutation_sym, sort_by_order_perm).
  apply sorted_counts_from.
  - apply StronglySorted_map_order, sort_by_order_sorted.
  - exact (Permutation_NoDup P Hnd).
  - intros x Hx. rewrite <- (Permutation_length P), Hlen.
    apply Hr. exact (Permutation_in _ (Permutation_sym P) Hx).
Qed.

Lemma DroppableCell_index_is_order_witness :
  Forall2 card_of (DroppableCell_cards four_job_cell) (sort_by_order four_job_cell).
Proof.
  exact (proj1 (DroppableCell_index_is_order four_job_cell 4 four_job_cell_orders)).
Defined.

(** ** [fetchData] *)

(** X20. Loading twice from the same backend gives the state of loading
    once, and the state a load leaves is never marked as loading. *)
Theorem fetchData_idempotent :
  forall st be,
    fst (fetchData (fst (fetchData st be)) be) = fst (fetchData st be) /\
    loading (fst (fetchData st be)) = false.
Proof.
  intros [[u|] lo ed js w] be; unfold fetchData, fetchData_failed;
    cbn [user setLoading setEditors setJobs loading editors jobs currentWeekStartStr];
    [|split; reflexivity].
  destruct (editors_select be) as [erows|m|m] eqn:He;
    cbn [user setLoading setEditors setJobs loading editors jobs currentWeekStartStr fst];
    try (split; reflexivity).
  destruct (jobs_select_week be w) as [r|m|m] eqn:W;
    cbn [user setLoading setEditors setJobs loading editors jobs currentWeekStartStr fst];
    try rewrite W;
    try (split; reflexivity);
    destruct (jobs_select be) as [jrows|m'|m'] eqn:Hj;
    cbn [user setLoading setEditors setJobs loading editors jobs currentWeekStartStr fst];
    try rewrite W; try rewrite Hj; split; reflexivity.
Qed.

(** X21. The query for the jobs of the displayed week has no effect on
    the outcome unless it throws: its rows are not used and an error it
    returns is not reported.  Two backends that agree on the other
    queries lead [fetchData] to the same state and the same log. *)
Theorem fetchData_ignores_week_reply :
  forall st be be',
    same_but_week be be' ->
    (forall message,
        jobs_select_week be (currentWeekStartStr st) <> Rejected message) ->
    (forall message,
        jobs_select_week be' (currentWeekStartStr st) <> Rejected message) ->
    fetchData st be = fetchData st be'.
Proof.
  intros st be be' (_ & He & Hj) H H'. unfold fetchData.
  destruct (user st) as [u|]; [|reflexivity]. rewrite <- He.
  destruct (editors_select be) as [erows|m|m]; try reflexivity.
  cbn [currentWeekStartStr setEditors setLoading] in *. rewrite <- Hj.
  destruct (jobs_select_week be (currentWeekStartStr st)) as [r|m|m];
    destruct (jobs_select_week be' (currentWeekStartStr st)) as [r'|m'|m'];
    try reflexivity;
    try (exfalso; exact (H m eq_refl)); try (exfalso; exact (H' m' eq_refl)).
Qed.

Lemma fetchData_ignores_week_reply_witness :
  fetchData planner_four_jobs stored_backend
  = fetchData planner_four_jobs
      (mkBackend (Data "free")
                 (fun _ name capacity => Data (EditorRow.mk "e-new" name capacity))
                 (fun _ => Data tt)
                 (Data [EditorRow.mk "e1" "Alice" (lit 40)])
                 (fun _ => Error "timeout")
                 (Data (map job_row four_job_cell))).
Proof.
  apply fetchData_ignores_week_reply.
  - repeat split.
  - intros message. discriminate.
  - intros message. discriminate.
Defined.

(** ** [getJobCountForDate] *)

Lemma day_counts (w : string) (l : list Job.t) :
  (forall job, In job l -> Job.weekStart job = w -> 0 <= Job.scheduledDate job <= 6) ->
  list_sum
    (map (fun day =>
            List.length
              (filter (fun job => (Job.weekStart job === w)
                                  && (Job.scheduledDate job =? Z.rem (day + 6) 7)) l))
         week_days)
  = List.length (filter (fun job => Job.weekStart job === w) l).
Proof.
  unfold week_days, list_sum. cbn [map fold_right].
  change (Z.rem (0 + 6) 7) with 6. change (Z.rem (1 + 6) 7) with 0.
  change (Z.rem (2 + 6) 7) with 1. change (Z.rem (3 + 6) 7) with 2.
  change (Z.rem (4 + 6) 7) with 3. change (Z.rem (5 + 6) 7) with 4.
  change (Z.rem (6 + 6) 7) with 5.
  induction l as [|x l IH]; intros H; [reflexivity|].
  assert (IH' := IH (fun job Hj => H job (or_intror Hj))). clear IH.
  cbn [filter]. pose proof (H x (or_introl eq_refl)) as R.
  destruct (String.eqb_spec (Job.weekStart x) w) as [E|E]; cbn [andb].
  - specialize (R E).
    destruct (Z.eqb_spec (Job.scheduledDate x) 6), (Z.eqb_spec (Job.scheduledDate x) 0),
      (Z.eqb_spec (Job.scheduledDate x) 1), (Z.eqb_spec (Job.scheduledDate x) 2),
      (Z.eqb_spec (Job.scheduledDate x) 3), (Z.eqb_spec (Job.scheduledDate x) 4),
      (Z.eqb_spec (Job.scheduledDate x) 5); try lia; cbn [List.length]; lia.
  - exact IH'.
Qed.

(** X22. When the jobs of a week are scheduled on the days 0 to 6, the
    counts [getJobCountForDate] gives for the seven dates of that week
    add up to the number of jobs of the week; for the displayed week
    that number is [currentWeekJobCount]. *)
Theorem getJobCountForDate_week_total :
  forall st w,
    (forall job, In job (jobs st) -> Job.weekStart job = w ->
                 0 <= Job.scheduledDate job <= 6) ->
    list_sum (map (fun day => getJobCountForDate st (mkDateView w day)) week_days)
    = List.length (filter (fun job => Job.weekStart job === w) (jobs st)) /\
    (w = currentWeekStartStr st ->
     list_sum (map (fun day => getJobCountForDate st (mkDateView w day)) week_days)
     = currentWeekJobCount st).
Proof.
  intros st w H.
  assert (E : list_sum (map (fun day => getJobCountForDate st (mkDateView w day))
                            week_days)
              = List.length (filter (fun job => Job.weekStart job === w) (jobs st))).
  { unfold getJobCountForDate. cbn [getDay weekStartStr]. now apply day_counts. }
  split; [exact E|]. intros ->. exact E.
Qed.

Lemma getJobCountForDate_week_total_witness :
  list_sum (map (fun day => getJobCountForDate planner_four_jobs
                              (mkDateView "2024-01-01" day)) week_days)
  = currentWeekJobCount planner_four_jobs.
Proof.
  refine (proj2 (getJobCountForDate_week_total planner_four_jobs "2024-01-01" _)
                eq_refl).
  intros job Hj _. cbn in Hj.
  destruct Hj as [<-|[<-|[<-|[<-|[]]]]]; cbn; lia.
Defined.

(** ** Identifiers stay unique *)

(** Removing jobs keeps the identifiers of the others distinct. *)
Lemma unique_ids_filter (p : Job.t -> bool) (l : list Job.t) :
  unique_ids l -> unique_ids (filter p l).
Proof.
  unfold unique_ids. induction l as [|job l IH]; cbn [map filter]; intros H.
  - constructor.
  - apply NoDup_cons_iff in H. destruct H as [Hjob H]. specialize (IH H).
    destruct (p job); [|exact IH]. cbn [map]. constructor; [|exact IH].
    rewrite in_map_iff. intros (other & E & Hin). apply filter_In in Hin.
    apply Hjob. rewrite in_map_iff. exists other. tauto.
Qed.

Lemma NoDup_snoc {A : Type} (l : list A) (x : A) :
  NoDup (l ++ [x]) <-> NoDup l /\ ~ In x l.
Proof.
  split.
  - intros H. apply NoDup_rev in H. rewrite rev_app_distr in H. cbn in H.
    apply NoDup_cons_iff in H. destruct H as [Hx H]. split.
    + apply NoDup_rev in H. now rewrite rev_involutive in H.
    + intros Hin. apply Hx. now apply in_rev in Hin.
  - intros [H Hx]. apply NoDup_rev in H.
    rewrite <- (rev_involutive (l ++ [x])). apply NoDup_rev.
    rewrite rev_app_distr. cbn. constructor; [|exact H].
    intros Hin. apply Hx. now apply in_rev.
Qed.

(** X23. The operations on jobs keep identifiers pairwise distinct:
    [moveJob] always, an accepted [deleteJob] always, an accepted
    [updateJob] when the patch does not set the identifier, and a
    successful [addJob] exactly when the identifier the backend returned
    is not yet in the collection. *)
Theorem unique_ids_preserved :
  forall st,
    unique_ids (jobs st) ->
    (forall jobId newEditorId newDayIndex newOrder out,
        moveJob (jobs st) jobId newEditorId newDayIndex newOrder = Normal out ->
        unique_ids out) /\
    (forall be wr jobId,
        jobs_delete wr jobId = Data tt ->
        unique_ids (jobs (fst (deleteJob st be wr jobId)))) /\
    (forall be wr jobId updates,
        jobs_update wr jobId (job_dbUpdates updates) = Data tt ->
        JobPatch.id updates = None ->
        unique_ids (jobs (fst (updateJob st be wr jobId updates)))) /\
    (forall render wr job newJob,
        snd (addJob render st wr job) = Normal (Some newJob) ->
        (unique_ids (jobs (fst (fst (addJob render st wr job)))) <->
         ~ In (Job.id newJob) (map Job.id (jobs st)))).
Proof.
  intros st Hu. unfold unique_ids in *. split; [|split; [|split]].
  - intros jobId e d o out H.
    destruct (movedJob (jobs st) jobId) as [job|] eqn:M.
    + rewrite (moveJob_found _ _ e d o _ M) in H. inversion H; subst out.
      rewrite map_map.
      rewrite (map_ext _ Job.id (moveJob_map_id job jobId e d o _)). exact Hu.
    + rewrite (moveJob_not_found _ _ e d o M) in H. now inversion H; subst.
  - intros be wr jobId H. rewrite (deleteJob_accepted st be wr jobId H).
    cbn [fst jobs setJobs]. now apply unique_ids_filter.
  - intros be wr jobId updates H Hid.
    rewrite (updateJob_accepted st be wr jobId updates H).
    cbn [fst jobs setJobs]. unfold patched_jobs. rewrite map_map.
    erewrite map_ext; [exact Hu|]. intros job. cbn.
    destruct (Job.id job === jobId); [|reflexivity].
    unfold merge_job. cbn. now rewrite Hid.
  - intros render wr job newJob. unfold addJob.
    destruct (user render) as [u|]; [|discriminate].
    match goal with
    | |- context [jobs_insert wr ?db] => destruct (jobs_insert wr db) as [row|m|m]
    end; cbn [fst snd jobs setJobs]; try discriminate.
    intros E. inversion E; subst newJob. clear E.
    rewrite map_app. cbn [map]. rewrite NoDup_snoc. tauto.
Qed.

Lemma unique_ids_preserved_witness :
  exists out, moveJob four_job_cell "b" "e1" 5 0 = Normal out /\ unique_ids out.
Proof.
  assert (U : unique_ids (jobs planner_four_jobs)).
  { unfold unique_ids. cbn. repeat constructor; cbn; intuition discriminate. }
  eexists. split; [reflexivity|].
  exact (proj1 (unique_ids_preserved planner_four_jobs U) "b" "e1" 5 0 _ eq_refl).
Defined.

(** ** [addEditor] and the plan limit *)

(** X24. [addEditor] keeps the editors it meets in place, appends at
    most one and does not touch the jobs.  When the state it meets has
    no more editors than the render the call comes from, as in a call
    that nothing overlaps, the number of editors afterwards is at most
    the larger of the render's number and the plan's limit.  But the
    limit is tested on the render's editors and the new editor appended
    to the state of the moment: of two calls from one render that is
    one below the limit, both pass the test, and the state ends one
    above the limit. *)
Theorem addEditor_within_limit :
  (forall render st be editor,
      let st' := fst (fst (addEditor render st be editor)) in
      (editors st' = editors st \/ exists e, editors st' = editors st ++ [e]) /\
      jobs st' = jobs st /\
      ((List.length (editors st) <= List.length (editors render))%nat ->
       Z.of_nat (List.length (editors st'))
       <= Z.max (Z.of_nat (List.length (editors render))) (plan_limit be))) /\
  (forall render be editor editor' u row row',
      user render = Some u ->
      Z.of_nat (List.length (editors render)) = plan_limit be - 1 ->
      editors_insert be (User.id u) (input_name editor) (input_weeklyCapacity editor)
      = Data row ->
      editors_insert be (User.id u) (input_name editor') (input_weeklyCapacity editor')
      = Data row' ->
      let st1 := fst (fst (addEditor render render be editor)) in
      let st2 := fst (fst (addEditor render st1 be editor')) in
      editors st2 = editors render ++ [formatEditor row; formatEditor row'] /\
      Z.of_nat (List.length (editors st2)) = plan_limit be + 1).
Proof.
  split.
  - intros render st be editor st'. subst st'.
    unfold addEditor, plan_limit, plan_tier.
    destruct (user render) as [u|];
      [|cbn; split; [now left | split; [reflexivity | lia]]].
    set (limit := if _ === "pro" then 10 else 2). rewrite Z.geb_leb.
    destruct (Z.leb_spec limit (Z.of_nat (List.length (editors render)))) as [L|L];
      [cbn; split; [now left | split; [reflexivity | lia]]|].
    destruct (editors_insert be (User.id u) (input_name editor)
                             (input_weeklyCapacity editor)) as [row|m|m];
      cbn [fst editors jobs setEditors];
      try (split; [now left | split; [reflexivity | lia]]).
    split; [right; eexists; reflexivity|]. split; [reflexivity|].
    rewrite length_app. cbn [List.length]. lia.
  - intros render be editor editor' u row row' Hu Hn E E' st1 st2. subst st2 st1.
    unfold addEditor, plan_limit, plan_tier in *. rewrite Hu.
    set (limit := if _ === "pro" then 10 else 2) in *. rewrite Z.geb_leb.
    destruct (Z.leb_spec limit (Z.of_nat (List.length (editors render)))) as [L|L];
      [lia|].
    rewrite E, E'. cbn [fst editors setEditors]. rewrite <- app_assoc.
    cbn [app]. split; [reflexivity|]. rewrite length_app. cbn [List.length]. lia.
Qed.

Lemma addEditor_within_limit_witness :
  let st := planner_four_jobs in
  let be := answering_backend "free" in
  Z.of_nat (List.length (editors (fst (fst (addEditor st st be carol)))))
  <= Z.max (Z.of_nat (List.length (editors st))) (plan_limit be) /\
  Z.of_nat (List.length
              (editors (fst (fst (addEditor st (fst (fst (addEditor st st be carol)))
                                            be carol)))))
  = plan_limit be + 1.
Proof.
  split.
  - exact (proj2 (proj2 (proj1 addEditor_within_limit planner_four_jobs
                           planner_four_jobs (answering_backend "free") carol))
                 (le_n _)).
  - exact (proj2 (proj2 addEditor_within_limit planner_four_jobs
                    (answering_backend "free") carol carol (User.mk "u1")
                    (EditorRow.mk "e-new" "Carol" (lit 40))
                    (EditorRow.mk "e-new" "Carol" (lit 40))
                    eq_refl eq_refl eq_refl eq_refl)).
Defined.

(** ** [PricingSection] *)

Lemma truthy_string_Some (field : option string) (s : string) :
  truthy_string field = Some s -> field = Some s /\ s <> "".
Proof.
  unfold truthy_string. destruct field as [t|]; [|discriminate].
  destruct (String.eqb_spec t ""); [discriminate|]. intros E.
  inversion E; subst. now split.
Qed.

Ltac checkout_cases :=
  repeat match goal with
         | |- context [match ?x with _ => _ end] => destruct x eqn:?
         | |- context [if ?b then _ else _] => destruct b eqn:?
         end.

Lemma startCheckout_posts user origin fetch plan url plan' email name :
  In (post_checkout url plan' email name) (startCheckout user origin fetch plan) ->
  url = checkout_url origin /\ plan' = plan /\ email <> "" /\ name <> "" /\
  exists u, user = Some u /\ Account.email u = Some email /\
            (name = email \/ Account.full_name u = Some name).
Proof.
  unfold startCheckout, checkout_url.
  destruct (truthy_string (match user with
                           | Some u => Account.email u
                           | None => None
                           end)) as [e|] eqn:Te.
  - apply truthy_string_Some in Te. destruct Te as [Ee Ne].
    destruct user as [u|]; [|discriminate].
    intros [H|[H|H]]; [discriminate H| |].
    + inversion H; subst. clear H. repeat split; try assumption.
      * destruct (truthy_string (Account.full_name u)) as [f|] eqn:Tf;
          [apply truthy_string_Some in Tf; tauto | assumption].
      * exists u. repeat split; try assumption.
        destruct (truthy_string (Account.full_name u)) as [f|] eqn:Tf;
          [apply truthy_string_Some in Tf; tauto | now left].
    + exfalso. revert H. unfold startCheckout_catch. checkout_cases; cbn;
        intuition discriminate.
  - cbn. intuition discriminate.
Qed.

(** X25. [handlePlanClick] posts a checkout request only when the plan
    name, in lower case, is pro or agency and a user with a non-empty
    e-mail address is signed in; the request then goes to the checkout
    endpoint of the page's origin and carries that plan, that address
    and a non-empty name, the user's full name or else the address.  The
    page never navigates and posts on the same click. *)
Theorem handlePlanClick_posts_only :
  forall toLowerCase user origin fetch planName,
    let effects := handlePlanClick toLowerCase user origin fetch planName in
    (forall url plan email name,
        In (post_checkout url plan email name) effects ->
        url = checkout_url origin /\ plan = toLowerCase planName /\
        (plan = "pro" \/ plan = "agency") /\ email <> "" /\ name <> "" /\
        exists u, user = Some u /\ Account.email u = Some email /\
                  (name = email \/ Account.full_name u = Some name)) /\
    (forall path, In (navigate path) effects ->
                  effects = [navigate path] /\
                  (path = "/auth" <-> user = None)).
Proof.
  intros toLowerCase user origin fetch planName effects. subst effects.
  unfold handlePlanClick. split.
  - intros url plan email name.
    destruct (String.eqb_spec (toLowerCase planName) "starter") as [E|E].
    { cbn. intuition discriminate. }
    destruct user as [u|]; [|cbn; intuition discriminate].
    destruct (String.eqb_spec (toLowerCase planName) "pro") as [P|P];
      [|destruct (String.eqb_spec (toLowerCase planName) "agency") as [A|A];
        [|intros []]];
      intros H; apply startCheckout_posts in H;
      destruct H as (-> & -> & H); repeat split; try tauto; auto.
  - intros path.
    destruct (String.eqb_spec (toLowerCase planName) "starter") as [E|E].
    { destruct user as [u|]; cbn; intros [H|[]]; inversion H; subst;
        (split; [reflexivity|]); split; congruence. }
    destruct user as [u|].
    + intros H. exfalso. revert H.
      destruct (toLowerCase planName === "pro");
        [|destruct (toLowerCase planName === "agency"); [|intros []]];
        unfold startCheckout, startCheckout_catch; checkout_cases; cbn;
        intuition discriminate.
    + cbn. intros [H|[]]. inversion H; subst. split; [reflexivity|]. tauto.
Qed.

Lemma handlePlanClick_posts_only_witness :
  checkout_url "https://editflow.app" = checkout_url "https://editflow.app" /\
  "pro" = lower "Pro".
Proof.
  assert (H : In (post_checkout (checkout_url "https://editflow.app") "pro"
                                "dana@example.com" "dana@example.com")
                 (handlePlanClick lower (Some dana) "https://editflow.app"
                                  paying_fetch "Pro"))
    by (vm_compute; tauto).
  destruct (proj1 (handlePlanClick_posts_only lower (Some dana) "https://editflow.app"
                     paying_fetch "Pro") _ _ _ _ H) as (A & B & _).
  split; [exact A | exact B].
Defined.

(** X26. A run of [startCheckout] shows at most one error message or
    redirects once, never both.  It redirects only to the non-empty
    address that a successful JSON response to its request carries, and
    it ends with neither a message nor a redirect only when such a
    response carries no address. *)
Theorem startCheckout_outcome :
  forall user origin fetch plan,
    let effects := startCheckout user origin fetch plan in
    (count is_toast effects + count is_redirect effects <= 1)%nat /\
    (count is_post effects <= 1)%nat /\
    (forall url,
        In (set_location_href url) effects ->
        url <> "" /\
        exists email name res data,
          In (post_checkout (checkout_url origin) plan email name) effects /\
          fetch (checkout_url origin) plan email name = Normal res /\
          ok res = true /\ json res = Normal data /\
          data_checkoutUrl data = Some url) /\
    ((count is_toast effects + count is_redirect effects)%nat = 0%nat ->
     exists email name res data,
       fetch (checkout_url origin) plan email name = Normal res /\
       ok res = true /\ json res = Normal data /\
       truthy_string (data_checkoutUrl data) = None).
Proof.
  intros user origin fetch plan effects. subst effects.
  unfold startCheckout, checkout_url, count.
  destruct (truthy_string (match user with
                           | Some u => Account.email u
                           | None => None
                           end)) as [e|] eqn:Te;
    [|cbn; repeat split; try lia; intuition discriminate].
  set (name := match truthy_string _ with Some f => f | None => e end).
  destruct (fetch (origin ++ "/api/create-checkout")%string plan e name)
    as [res|m] eqn:F;
    [|cbn; repeat split; try lia; intuition discriminate].
  destruct (content_type res) as [ct|] eqn:C.
  2:{ destruct (text res) as [b|message]; cbn;
        repeat split; try lia; intuition discriminate. }
  destruct (includes ct "application/json").
  2:{ destruct (text res) as [b|message]; cbn;
        repeat split; try lia; intuition discriminate. }
  destruct (json res) as [data|message] eqn:J;
    [|cbn; repeat split; try lia; intuition discriminate].
  destruct (ok res) eqn:O; cbn [negb];
    [|cbn; repeat split; try lia; intuition discriminate].
  destruct (truthy_string (data_checkoutUrl data)) as [url|] eqn:U.
  - apply truthy_string_Some in U. destruct U as [U Hn].
    cbn. split; [lia|]. split; [lia|]. split.
    + intros url' H.
      destruct H as [H|[H|[H|[H|[H|[H|[]]]]]]]; try discriminate H.
      inversion H; subst url'. split; [exact Hn|].
      exists e, name, res, data. repeat split; auto.
    + intros H. discriminate H.
  - cbn. split; [lia|]. split; [lia|]. split.
    + intros url' H. exfalso. intuition discriminate.
    + intros _. exists e, name, res, data. repeat split; auto.
Qed.

Lemma startCheckout_outcome_witness :
  In (set_location_href "https://pay.example/c1")
     (startCheckout (Some dana) "https://editflow.app" paying_fetch "pro") /\
  "https://pay.example/c1" <> "".
Proof.
  assert (H : In (set_location_href "https://pay.example/c1")
                 (startCheckout (Some dana) "https://editflow.app" paying_fetch "pro"))
    by (vm_compute; tauto).
  split; [exact H|].
  exact (proj1 (proj1 (proj2 (proj2 (startCheckout_outcome (Some dana)
                                       "https://editflow.app" paying_fetch "pro")))
                      _ H)).
Defined.
